(** * TermNova: script parser, frame timeline generator, frame painter,
      live typing driver and GIF delay conversion

    A shallow embedding of [utils/canvasRenderer.js], [utils/gifEncoder.js]
    and [hooks/useTypingAnimation.js].

    Conventions of the embedding:
    - JavaScript numbers that carry sizes, times and delays are exact
      rationals ([Q]); indices, counters and [targetFrameCount] are [nat].
    - JavaScript strings are [string]; the white space recognised by
      [trim]/[trimStart] is the ASCII part of the ECMAScript set
      (TAB, LF, VT, FF, CR, SPACE).
    - A JavaScript array that is written by index is a list of slots
      ([option]): writing past the end pads with holes, as the engine does. *)

From Stdlib Require Import Ascii String QArith Qround Qminmax Lqa Lia.
From stdpp Require Import base list strings.

Local Open Scope string_scope.
Local Open Scope list_scope.

(** ** JavaScript string and array primitives used by the sources *)

Definition isWhiteSpace (c : ascii) : bool :=
  let n := nat_of_ascii c in
  ((9 <=? n)%nat && (n <=? 13)%nat) || (n =? 32)%nat.

(** [String.prototype.trimStart] *)
Fixpoint trimStart (s : string) : string :=
  match s with
  | EmptyString => EmptyString
  | String c s' => if isWhiteSpace c then trimStart s' else s
  end.

(** [String.prototype.trimEnd] *)
Fixpoint trimEnd (s : string) : string :=
  match s with
  | EmptyString => EmptyString
  | String c s' =>
      match trimEnd s' with
      | EmptyString => if isWhiteSpace c then EmptyString else String c EmptyString
      | t => String c t
      end
  end.

(** [String.prototype.trim] *)
Definition trim (s : string) : string := trimEnd (trimStart s).

(** [s.startsWith(p)] *)
Definition startsWith (p s : string) : bool := String.prefix p s.

(** [s.slice(n)] for a non-negative [n] *)
Definition slice (n : nat) (s : string) : string :=
  substring n (String.length s - n) s.

(** [s.substring(0, k)] *)
Definition substring0 (k : nat) (s : string) : string := substring 0 k s.

(** [arr[i] = v] on a JavaScript array: replaces slot [i] when it exists,
    appends when [i] is the length, and leaves holes in between when [i] is
    further out. *)
Definition arr_set {A} (i : nat) (v : A) (arr : list (option A)) : list (option A) :=
  if (i <? length arr)%nat then <[i := Some v]> arr
  else arr ++ replicate (i - length arr) None ++ [Some v].

(** ** Script parser ([parseLines]) *)

Record Entry := {
  type : string;
  text : string;
  showPrompt : bool;
  instant : bool;
}.

Record ParseState := {
  result : list Entry;
  inInstantBlock : bool;
}.

(** One iteration of the [for (const line of inputLines)] loop. *)
Definition parse_line (st : ParseState) (line : string) : ParseState :=
  let trimmed := trim line in
  if String.eqb trimmed "!!" then
    {| result := result st; inInstantBlock := negb (inInstantBlock st) |}
  else
    let trimmedStart := trimStart line in
    if startsWith ">" trimmedStart then
      let command := trimStart (slice 1 trimmedStart) in
      {| result := result st ++
           [ {| type := "command"; text := command;
                showPrompt := true; instant := false |} ];
         inInstantBlock := inInstantBlock st |}
    else
      {| result := result st ++
           [ {| type := "output"; text := line;
                showPrompt := false; instant := inInstantBlock st |} ];
         inInstantBlock := inInstantBlock st |}.

Definition parseLines (inputLines : list string) (promptText : string) : list Entry :=
  result (fold_left parse_line inputLines {| result := []; inInstantBlock := false |}).

(** The parser as section 4.1 of the specification words it: a relation
    between the block flag, the remaining lines and the entries they yield.
    The [instant] flag of a Command entry is left open here. *)
Definition is_marker_line (line : string) : bool := String.eqb (trim line) "!!".
Definition is_command_line (line : string) : bool := startsWith ">" (trimStart line).

Inductive parses : bool -> list string -> list Entry -> Prop :=
| parses_done b : parses b [] []
| parses_marker b line rest es :
    trim line = "!!" ->
    parses (negb b) rest es ->
    parses b (line :: rest) es
| parses_command b line rest e es :
    trim line <> "!!" ->
    is_command_line line = true ->
    type e = "command" ->
    text e = trimStart (slice 1 (trimStart line)) ->
    showPrompt e = true ->
    parses b rest es ->
    parses b (line :: rest) (e :: es)
| parses_output b line rest es :
    trim line <> "!!" ->
    is_command_line line = false ->
    parses b rest es ->
    parses b (line :: rest)
      ({| type := "output"; text := line; showPrompt := false; instant := b |} :: es).

(** The generator's per-line classification (the expression bound to
    [shouldBeInstant] and [nextIsInstant], and the guard of the
    [typedChars] reduction). *)
Definition shouldBeInstant (outputMode : string) (l : Entry) : bool :=
  (String.eqb outputMode "instant" && negb (showPrompt l)) || instant l.

(** [s.split('\n')]: never empty. *)
Definition newline : ascii := ascii_of_nat 10.

Fixpoint split_nl (s : string) : list string :=
  match s with
  | EmptyString => [EmptyString]
  | String c s' =>
      if Ascii.eqb c newline then EmptyString :: split_nl s'
      else match split_nl s' with
           | p :: ps => String c p :: ps
           | [] => [String c EmptyString]
           end
  end.

(** [s.includes('\n')] *)
Fixpoint includes_nl (s : string) : bool :=
  match s with
  | EmptyString => false
  | String c s' => Ascii.eqb c newline || includes_nl s'
  end.

(** Truthiness of a string, and of a number that may be [null]. *)
Definition truthy_string (s : string) : bool := negb (String.eqb s "").
Definition truthy_number (o : option Q) : bool :=
  match o with
  | Some q => negb (Qeq_bool q 0)
  | None => false
  end.

(** [Math.floor], [Math.round] (ties go up) on exact rationals. *)
Definition js_floor (q : Q) : Q := inject_Z (Qfloor q).
Definition js_round (q : Q) : Z := Qfloor (q + (1 # 2))%Q.

(** ** Display data shared by the generator and the painter *)

(** A display line of the export path: [{ text, showPrompt }]. *)
Record DisplayLine := {
  line_text : string;
  line_showPrompt : bool;
}.

(** The display state handed to [createTerminalCanvas]. [createFrame], its
    only caller, always passes [showCursor] and [cursorLineIndex], so the
    defaults of the destructuring in [drawTerminal] never apply. *)
Record DisplayState := {
  lines : list (option DisplayLine);
  showCursor : bool;
  cursorLineIndex : nat;
}.

(** The arguments of one [createFrame(lines, cursorLineIndex, delay)] call. *)
Record TimelineFrame := {
  tf_lines : list (option DisplayLine);
  tf_cursorLineIndex : nat;
  tf_delay : Q;
}.

Record Config := {
  fontSize : Q;
  padding : Q;
  lineHeight : Q;
  borderRadius : Q;
  showTitle : bool;
  font : string;
  promptText : string;
  cursorStyle : string;
  outputMode : string;
}.

Record Theme := {
  prompt : string;
  foreground : string;
  comment : string;
  cursor : string;
}.

Record Options := {
  targetFrameCount : nat;
  typingSpeed : Q;
  targetWidth : option Q;
  targetHeight : option Q;
}.

(** ** Frame timeline ([generateAnimationFrames], the display-state part) *)

Section Timeline.
Variable parsedLines : list Entry.
Variable mode : string.           (* [config.outputMode || 'typing'] *)
Variable charsPerFrame : option nat. (* [None]: not a finite number *)
Variable speed : Q.               (* [typingSpeed] *)

Record GenState := {
  frames : list TimelineFrame;
  displayLines : list (option DisplayLine);
  charCounter : nat;
  lineIdx : nat;
}.

(** [displayLines.map(l => ({ ...l }))]: a copy; values have no identity
    here, so the copy is the array itself. *)
Definition snapshot (dl : list (option DisplayLine)) : list (option DisplayLine) := dl.

Definition push_frame (dl : list (option DisplayLine)) (cursorIdx : nat) (delay : Q)
    (fs : list TimelineFrame) : list TimelineFrame :=
  fs ++ [ {| tf_lines := snapshot dl; tf_cursorLineIndex := cursorIdx; tf_delay := delay |} ].

(** [displayLines[i].text = s]; slot [i] was assigned just before in the
    same iteration. *)
Definition set_text (i : nat) (s : string) (dl : list (option DisplayLine))
    : list (option DisplayLine) :=
  alter (fmap (fun l => {| line_text := s; line_showPrompt := line_showPrompt l |})) i dl.

(** The inner [while (batchEndIdx + 1 < parsedLines.length)] loop; [rest] is
    [parsedLines] from index [batchEndIdx + 1] on. *)
Fixpoint batch_loop (rest : list Entry) (batchEndIdx : nat)
    (dl : list (option DisplayLine)) : nat * list (option DisplayLine) :=
  match rest with
  | [] => (batchEndIdx, dl)
  | nextLine :: rest' =>
      if negb (shouldBeInstant mode nextLine) then (batchEndIdx, dl)
      else
        batch_loop rest' (S batchEndIdx)
          (arr_set (S batchEndIdx)
             {| line_text := text nextLine; line_showPrompt := showPrompt nextLine |} dl)
  end.

(** [charCounter % charsPerFrame === 0] *)
Definition counter_hits (counter : nat) : bool :=
  match charsPerFrame with
  | Some k => (counter mod k =? 0)%nat
  | None => false
  end.

(** One iteration of [for (charIdx = 0; charIdx < fullText.length; charIdx++)]. *)
Definition type_char (fullText : string) (st : GenState) (charIdx : nat) : GenState :=
  let dl := set_text (lineIdx st) (substring0 (charIdx + 1) fullText) (displayLines st) in
  let counter := S (charCounter st) in
  let fs :=
    if counter_hits counter || (charIdx =? String.length fullText - 1)%nat
    then push_frame dl (lineIdx st) (Qmax 30 speed) (frames st)
    else frames st in
  {| frames := fs; displayLines := dl; charCounter := counter; lineIdx := lineIdx st |}.

Definition batch_delay (outputLineCount : nat) : Q :=
  let baseDelay := 150%Q in
  let perLineDelay := Qmin 50 (200 / inject_Z (Z.of_nat outputLineCount)) in
  let totalDelay := (baseDelay + inject_Z (Z.of_nat outputLineCount) * perLineDelay)%Q in
  Qmin totalDelay 400.

(** The body of [while (lineIdx < parsedLines.length)]. *)
Definition gen_body (st : GenState) : GenState :=
  match parsedLines !! lineIdx st with
  | None => st
  | Some lineInfo =>
      let fullText := text lineInfo in
      let isCommand := showPrompt lineInfo in
      let dl0 := arr_set (lineIdx st)
                   {| line_text := ""; line_showPrompt := showPrompt lineInfo |}
                   (displayLines st) in
      let st1 :=
        if shouldBeInstant mode lineInfo then
          let dl1 := set_text (lineIdx st) fullText dl0 in
          let '(batchEndIdx, dl2) :=
            batch_loop (drop (S (lineIdx st)) parsedLines) (lineIdx st) dl1 in
          let outputLineCount := (batchEndIdx - lineIdx st + 1)%nat in
          {| frames := push_frame dl2 batchEndIdx (batch_delay outputLineCount) (frames st);
             displayLines := dl2;
             charCounter := charCounter st;
             lineIdx := batchEndIdx + 1 |}
        else
          let st' :=
            fold_left (type_char fullText) (seq 0 (String.length fullText))
              {| frames := frames st; displayLines := dl0;
                 charCounter := charCounter st; lineIdx := lineIdx st |} in
          {| frames := frames st'; displayLines := displayLines st';
             charCounter := charCounter st'; lineIdx := S (lineIdx st') |} in
      if (lineIdx st1 <? length parsedLines)%nat then
        {| frames := push_frame (displayLines st1) (lineIdx st1) 150 (frames st1);
           displayLines := displayLines st1;
           charCounter := charCounter st1;
           lineIdx := lineIdx st1 |}
      else st1
  end.

(** The [while] loop; every iteration advances [lineIdx], so
    [length parsedLines] rounds are enough (lemma [gen_loop_exits]). *)
Fixpoint gen_loop (fuel : nat) (st : GenState) : GenState :=
  match fuel with
  | O => st
  | S fuel' =>
      if (lineIdx st <? length parsedLines)%nat
      then gen_loop fuel' (gen_body st)
      else st
  end.

(** From the initial empty frame to the final frame. *)
Definition timeline : list TimelineFrame :=
  let st0 := {| frames := push_frame [] 0 500 [];
                displayLines := []; charCounter := 0; lineIdx := 0 |} in
  let st := gen_loop (length parsedLines) st0 in
  push_frame (displayLines st) (length parsedLines) 2000 (frames st).
End Timeline.

(** [typedChars] and [charsPerFrame]. A zero [targetFrameCount] makes the
    quotient infinite or NaN, and the modulus test then never holds. *)
Definition typedChars (mode : string) (parsedLines : list Entry) : nat :=
  fold_left (fun sum l =>
               if shouldBeInstant mode l then sum
               else (sum + String.length (text l))%nat)
            parsedLines 0%nat.

Definition ceil_div (a b : nat) : nat := ((a + b - 1) / b)%nat.

Definition charsPerFrameOf (typed targetFrames : nat) : option nat :=
  match targetFrames with
  | O => None
  | _ => Some (Nat.max 1 (ceil_div typed targetFrames))
  end.

Definition effectiveMode (config : Config) : string :=
  if truthy_string (outputMode config) then outputMode config else "typing".

Definition generateTimeline (parsedLines : list Entry) (config : Config) (options : Options)
    : list TimelineFrame :=
  let mode := effectiveMode config in
  timeline parsedLines mode
    (charsPerFrameOf (typedChars mode parsedLines) (targetFrameCount options))
    (typingSpeed options).

(** ** Frame painter and sizing *)

(** What the painter puts on the canvas for the text area, in paint order.
    The window chrome painted before it (fill, border, title bar, buttons)
    does not depend on the display state and is not recorded. *)
Record Rect := { rx : Q; ry : Q; rw : Q; rh : Q }.

Inductive Paint :=
| PromptText (s : string) (x y : Q)
| LineText (lineIdx : nat) (fillStyle : string) (s : string) (x y : Q)
| LineCursor (lineIdx : nat) (fillStyle : string) (r : Rect)
| RestingCursor (fillStyle : string) (r : Rect).

Record Canvas := {
  width : Q;
  height : Q;
  painted : list Paint;
}.

Record Frame := {
  canvas : Canvas;
  delay : Q;
}.

Section Painter.
(** The text-measuring capability of the 2D context: the width of a string
    set in the given size and family. *)
Variable measureText : Q -> string -> string -> Q.

Definition fontFamily (config : Config) : string :=
  if truthy_string (font config) then font config else "monospace".

Definition calculateCanvasDimensions (config : Config) (theme : Theme)
    (lines : list DisplayLine) (scale : Q) : Q * Q :=
  let fontSize := (fontSize config * scale)%Q in
  let padding := (padding config * scale)%Q in
  let lineHeight := lineHeight config in
  let titleBarHeight := if showTitle config then (40 * scale)%Q else 0%Q in
  let measure := measureText fontSize (fontFamily config) in
  let maxLineWidth :=
    fold_left (fun maxLineWidth line =>
                 let w0 :=
                   if line_showPrompt line && truthy_string (promptText config)
                   then measure (List.last (split_nl (promptText config)) "")
                   else 0%Q in
                 Qmax maxLineWidth (w0 + measure (line_text line))%Q)
              lines 0%Q in
  let contentWidth := (maxLineWidth + padding * 2 + 40 * scale)%Q in
  let totalWidth := Qmax (400 * scale) contentWidth in
  let totalLines :=
    fold_left (fun totalLines line =>
                 let extra :=
                   if line_showPrompt line && truthy_string (promptText config)
                      && includes_nl (promptText config)
                   then (length (split_nl (promptText config)) - 1)%nat else 0%nat in
                 (totalLines + extra + 1)%nat)
              lines 0%nat in
  let totalLines :=
    if truthy_string (promptText config) && includes_nl (promptText config)
    then (totalLines + length (split_nl (promptText config)))%nat
    else (totalLines + 1)%nat in
  let contentHeight :=
    (inject_Z (Z.of_nat totalLines) * fontSize * lineHeight + padding * 2 + 20 * scale)%Q in
  let totalHeight := (titleBarHeight + Qmax (100 * scale) contentHeight)%Q in
  (totalWidth, totalHeight).

Definition drawCursor (x y fontSize : Q) (style : string) (scale : Q) : Rect :=
  let width := (fontSize * 0.6)%Q in
  let height := (fontSize * 1.1)%Q in
  if String.eqb style "block" then {| rx := x; ry := y; rw := width; rh := height |}
  else if String.eqb style "underline" then
    {| rx := x; ry := (y + height - 3 * scale)%Q; rw := width; rh := (3 * scale)%Q |}
  else {| rx := x; ry := y; rw := (2 * scale)%Q; rh := height |}.

(** The prompt, as both the line loop and the resting cursor draw it: all
    parts but the last on lines of their own, the last one inline. Returns
    the paint, the x after the prompt and the y of its last part. *)
Definition draw_prompt (config : Config) (fontSize : Q) (x y : Q) : list Paint * Q * Q :=
  let measure := measureText fontSize (fontFamily config) in
  let promptParts := split_nl (promptText config) in
  if (1 <? length promptParts)%nat then
    let n := (length promptParts - 1)%nat in
    let heads :=
      imap (fun p part =>
              PromptText part x (y + inject_Z (Z.of_nat p) * (fontSize * lineHeight config))%Q)
           (take n promptParts) in
    let y' := (y + inject_Z (Z.of_nat n) * (fontSize * lineHeight config))%Q in
    let lastPart := List.last promptParts "" in
    (heads ++ [PromptText lastPart x y'], (x + measure lastPart)%Q, y')
  else
    ([PromptText (promptText config) x y], (x + measure (promptText config))%Q, y).

(** The [for (lineIdx ...)] loop of [drawTerminal]; returns the paint and
    the y below the last line. *)
Fixpoint draw_lines (config : Config) (theme : Theme) (showCursor : bool)
    (cursorLineIndex : nat) (scale : Q) (lines : list DisplayLine)
    (lineIdx : nat) (currentY : Q) : list Paint * Q :=
  match lines with
  | [] => ([], currentY)
  | line :: rest =>
      let fontSize := (fontSize config * scale)%Q in
      let padding := (padding config * scale)%Q in
      let measure := measureText fontSize (fontFamily config) in
      let '(promptPaint, currentX, currentY) :=
        if line_showPrompt line && truthy_string (promptText config)
        then draw_prompt config fontSize padding currentY
        else ([], padding, currentY) in
      let textColor := if line_showPrompt line then foreground theme else comment theme in
      let textPaint := [LineText lineIdx textColor (line_text line) currentX currentY] in
      let cursorPaint :=
        if showCursor && (cursorLineIndex =? lineIdx)%nat then
          let textWidth := measure (line_text line) in
          [LineCursor lineIdx (cursor theme)
             (drawCursor (currentX + textWidth + 2 * scale)%Q currentY fontSize
                (cursorStyle config) scale)]
        else [] in
      let '(restPaint, endY) :=
        draw_lines config theme showCursor cursorLineIndex scale rest (S lineIdx)
          (currentY + fontSize * lineHeight config)%Q in
      (promptPaint ++ textPaint ++ cursorPaint ++ restPaint, endY)
  end.

Definition drawTerminal (config : Config) (theme : Theme)
    (lines : list DisplayLine) (showCursor : bool) (cursorLineIndex : nat)
    (scale : Q) : list Paint :=
  let fontSize := (fontSize config * scale)%Q in
  let padding := (padding config * scale)%Q in
  let titleBarHeight := if showTitle config then (40 * scale)%Q else 0%Q in
  let contentY := titleBarHeight in
  let '(linePaint, currentY) :=
    draw_lines config theme showCursor cursorLineIndex scale lines 0
      (contentY + padding)%Q in
  let restingPaint :=
    if showCursor && (length lines <=? cursorLineIndex)%nat then
      let '(promptPaint, cursorX, currentY) :=
        if truthy_string (promptText config)
        then draw_prompt config fontSize padding currentY
        else ([], padding, currentY) in
      promptPaint ++
        [RestingCursor (cursor theme)
           (drawCursor (cursorX + 2 * scale)%Q currentY fontSize (cursorStyle config) scale)]
    else [] in
  linePaint ++ restingPaint.

(** All slots of an array, or [None] when one is a hole: reading
    [line.showPrompt] of a hole throws. *)
Definition dense {A} (arr : list (option A)) : option (list A) := mapM id arr.

Definition createTerminalCanvas (config : Config) (theme : Theme) (ds : DisplayState)
    (scale : Q) (fixedWidth fixedHeight : option Q) : option Canvas :=
  match dense (lines ds) with
  | None => None
  | Some ls =>
      let '(canvasWidth, canvasHeight) :=
        match fixedWidth, fixedHeight with
        | Some w, Some h =>
            if truthy_number fixedWidth && truthy_number fixedHeight then (w, h)
            else calculateCanvasDimensions config theme ls scale
        | _, _ => calculateCanvasDimensions config theme ls scale
        end in
      Some {| width := canvasWidth; height := canvasHeight;
              painted := drawTerminal config theme ls (showCursor ds)
                           (cursorLineIndex ds) scale |}
  end.

(** The font auto-scaling of [generateAnimationFrames]. *)
Definition fitRatio (config : Config) (theme : Theme) (finalLines : list DisplayLine)
    (scale canvasWidth canvasHeight : Q) : Q :=
  let terminalDims := calculateCanvasDimensions config theme finalLines scale in
  let widthRatio := (canvasWidth / fst terminalDims)%Q in
  let heightRatio := (canvasHeight / snd terminalDims)%Q in
  Qmin widthRatio heightRatio.

Definition with_font (config : Config) (newFontSize newPadding : Q) : Config :=
  {| fontSize := newFontSize; padding := newPadding;
     lineHeight := lineHeight config; borderRadius := borderRadius config;
     showTitle := showTitle config; font := font config;
     promptText := promptText config; cursorStyle := cursorStyle config;
     outputMode := outputMode config |}.

Definition finalLinesOf (parsedLines : list Entry) : list DisplayLine :=
  map (fun l => {| line_text := text l; line_showPrompt := showPrompt l |}) parsedLines.

Definition adjustedConfigOf (parsedLines : list Entry) (config : Config) (theme : Theme)
    (options : Options) : Config :=
  let scale := 2%Q in
  let useTargetDimensions :=
    truthy_number (targetWidth options) && truthy_number (targetHeight options) in
  match targetWidth options, targetHeight options with
  | Some tw, Some th =>
      if useTargetDimensions then
        let canvasWidth := (tw * scale)%Q in
        let canvasHeight := (th * scale)%Q in
        let fit := fitRatio config theme (finalLinesOf parsedLines) scale
                     canvasWidth canvasHeight in
        if Qlt_le_dec fit 1 then
          let minFontSize := 8%Q in
          let newFontSize := Qmax minFontSize (js_floor (fontSize config * fit)) in
          let newPadding := Qmax 8 (js_floor (padding config * fit)) in
          with_font config newFontSize newPadding
        else config
      else config
  | _, _ => config
  end.

Definition finalCanvasSize (parsedLines : list Entry) (config : Config) (theme : Theme)
    (options : Options) : Q * Q :=
  let scale := 2%Q in
  match targetWidth options, targetHeight options with
  | Some tw, Some th =>
      if truthy_number (targetWidth options) && truthy_number (targetHeight options)
      then ((tw * scale)%Q, (th * scale)%Q)
      else calculateCanvasDimensions
             (adjustedConfigOf parsedLines config theme options) theme
             (finalLinesOf parsedLines) scale
  | _, _ => calculateCanvasDimensions
              (adjustedConfigOf parsedLines config theme options) theme
              (finalLinesOf parsedLines) scale
  end.

(** The [createFrame] helper, applied to recorded arguments. *)
Definition createFrame (adjustedConfig : Config) (theme : Theme)
    (finalCanvas : Q * Q) (tf : TimelineFrame) : option Frame :=
  match createTerminalCanvas adjustedConfig theme
          {| lines := tf_lines tf; showCursor := true;
             cursorLineIndex := tf_cursorLineIndex tf |}
          2 (Some (fst finalCanvas)) (Some (snd finalCanvas)) with
  | Some c => Some {| canvas := c; delay := tf_delay tf |}
  | None => None
  end.

(** [generateAnimationFrames]; [None] stands for a thrown [TypeError]. *)
Definition generateAnimationFrames (parsedLines : list Entry) (config : Config)
    (theme : Theme) (options : Options) : option (list Frame) :=
  mapM (createFrame (adjustedConfigOf parsedLines config theme options) theme
          (finalCanvasSize parsedLines config theme options))
       (generateTimeline parsedLines config options).
End Painter.

(** ** GIF encoder driver ([createGIF]) *)

(** One [gif.writeFrame(indexedPixels, width, height, { palette, delay })]
    call; pixels and palette are left out. *)
Record WriteFrame := {
  wf_width : Q;
  wf_height : Q;
  wf_delay : Z;
}.

Definition write_frame (frame : Frame) : WriteFrame :=
  let delay := js_round (delay frame / 10) in
  {| wf_width := width (canvas frame); wf_height := height (canvas frame);
     wf_delay := Z.max 2 delay |}.

(** The calls made before [gif.finish()], or the thrown error. *)
Definition createGIF (frames : list Frame) : string + list WriteFrame :=
  match frames with
  | [] => inl "No frames provided"
  | _ => inr (map write_frame frames)
  end.

(** The delay fields of the exported file, one per frame, in hundredths of
    a second. [GIFEncoder] comes from the [gifenc] package, which is not
    part of these sources: [encodeDelay] stands for what its [writeFrame]
    stores in the frame's Graphic Control Extension for a given [delay]
    option. *)
Definition storedDelays (encodeDelay : Z -> Z) (frames : list Frame) : string + list Z :=
  match createGIF frames with
  | inl e => inl e
  | inr calls => inr (map (fun c => encodeDelay (wf_delay c)) calls)
  end.

(** The contract [gifenc] documents for the [delay] option: a time in
    milliseconds, stored as [Math.round(delay / 10)]. *)
Definition takes_milliseconds (encodeDelay : Z -> Z) : Prop :=
  forall d, encodeDelay d = js_round (inject_Z d / 10).

(** ** Live typing driver ([useMultiLineTyping]) *)

Record ShownLine := {
  shown_text : string;
  complete : bool;
}.

Record Driver := {
  d_lineIdx : nat;
  d_charIdx : nat;
  d_lastTime : Q;
  waitingForNextLine : bool;
  waitStartTime : Q;
  displayedLines : list (option ShownLine);
  isComplete : bool;
  currentLineIndex : nat;
  scheduled : bool;   (* a [requestAnimationFrame(animate)] is outstanding *)
}.

Section LiveDriver.
Variable lines_ : list string.      (* [lines] *)
Variable speed : Q.
Variable lineDelay : Q.
Variable mode : string.             (* [outputMode] *)
Variable lineInfo : option (list Entry).

Definition shouldTypeLine (idx : nat) : bool :=
  if negb (String.eqb mode "instant") then true
  else
    match lineInfo with
    | Some info =>
        match info !! idx with
        | Some e => showPrompt e
        | None => true
        end
    | None => true
    end.

Definition set_shown (i : nat) (t : string) (c : bool) (d : Driver) : Driver :=
  {| d_lineIdx := d_lineIdx d; d_charIdx := d_charIdx d; d_lastTime := d_lastTime d;
     waitingForNextLine := waitingForNextLine d; waitStartTime := waitStartTime d;
     displayedLines := arr_set i {| shown_text := t; complete := c |} (displayedLines d);
     isComplete := isComplete d; currentLineIndex := currentLineIndex d;
     scheduled := scheduled d |}.

(** The tail shared by the two "line finished" branches. *)
Definition next_or_finish (timestamp : Q) (d : Driver) : Driver :=
  if (d_lineIdx d <? length lines_ - 1)%nat then
    {| d_lineIdx := d_lineIdx d; d_charIdx := d_charIdx d; d_lastTime := d_lastTime d;
       waitingForNextLine := true; waitStartTime := timestamp;
       displayedLines := displayedLines d;
       isComplete := isComplete d; currentLineIndex := currentLineIndex d;
       scheduled := true |}
  else
    {| d_lineIdx := d_lineIdx d; d_charIdx := d_charIdx d; d_lastTime := d_lastTime d;
       waitingForNextLine := waitingForNextLine d; waitStartTime := waitStartTime d;
       displayedLines := displayedLines d;
       isComplete := true; currentLineIndex := currentLineIndex d;
       scheduled := false |}.

(** One call of [animate(timestamp)]. *)
Definition animate (timestamp : Q) (d0 : Driver) : Driver :=
  let lastTime := if Qeq_bool (d_lastTime d0) 0 then timestamp else d_lastTime d0 in
  let d := {| d_lineIdx := d_lineIdx d0; d_charIdx := d_charIdx d0; d_lastTime := lastTime;
              waitingForNextLine := waitingForNextLine d0;
              waitStartTime := waitStartTime d0;
              displayedLines := displayedLines d0;
              isComplete := isComplete d0; currentLineIndex := currentLineIndex d0;
              scheduled := false |} in
  let elapsed := (timestamp - lastTime)%Q in
  if waitingForNextLine d then
    if Qle_bool lineDelay (timestamp - waitStartTime d) then
      {| d_lineIdx := S (d_lineIdx d); d_charIdx := 0; d_lastTime := timestamp;
         waitingForNextLine := false; waitStartTime := waitStartTime d;
         displayedLines := displayedLines d;
         isComplete := isComplete d; currentLineIndex := S (d_lineIdx d);
         scheduled := true |}
    else
      {| d_lineIdx := d_lineIdx d; d_charIdx := d_charIdx d; d_lastTime := lastTime;
         waitingForNextLine := true; waitStartTime := waitStartTime d;
         displayedLines := displayedLines d;
         isComplete := isComplete d; currentLineIndex := currentLineIndex d;
         scheduled := true |}
  else
    match lines_ !! d_lineIdx d with
    | None =>
        {| d_lineIdx := d_lineIdx d; d_charIdx := d_charIdx d; d_lastTime := lastTime;
           waitingForNextLine := false; waitStartTime := waitStartTime d;
           displayedLines := displayedLines d;
           isComplete := true; currentLineIndex := currentLineIndex d;
           scheduled := false |}
    | Some currentLine =>
        let typeThisLine := shouldTypeLine (d_lineIdx d) in
        if negb typeThisLine then
          next_or_finish timestamp (set_shown (d_lineIdx d) currentLine true d)
        else if negb (Qle_bool speed elapsed) then
          {| d_lineIdx := d_lineIdx d; d_charIdx := d_charIdx d; d_lastTime := lastTime;
             waitingForNextLine := false; waitStartTime := waitStartTime d;
             displayedLines := displayedLines d;
             isComplete := isComplete d; currentLineIndex := currentLineIndex d;
             scheduled := true |}
        else
          let d := {| d_lineIdx := d_lineIdx d; d_charIdx := d_charIdx d;
                      d_lastTime := timestamp;
                      waitingForNextLine := false; waitStartTime := waitStartTime d;
                      displayedLines := displayedLines d;
                      isComplete := isComplete d; currentLineIndex := currentLineIndex d;
                      scheduled := false |} in
          if (d_charIdx d <? String.length currentLine)%nat then
            let charIdx := S (d_charIdx d) in
            let d := {| d_lineIdx := d_lineIdx d; d_charIdx := charIdx;
                        d_lastTime := d_lastTime d;
                        waitingForNextLine := false; waitStartTime := waitStartTime d;
                        displayedLines := displayedLines d;
                        isComplete := isComplete d;
                        currentLineIndex := currentLineIndex d;
                        scheduled := true |} in
            set_shown (d_lineIdx d) (substring0 charIdx currentLine) false d
          else
            next_or_finish timestamp (set_shown (d_lineIdx d) currentLine true d)
    end.

(** The state the effect leaves when it starts the animation
    ([enabled], non-empty [lines]). *)
Definition driver_start : Driver :=
  {| d_lineIdx := 0; d_charIdx := 0; d_lastTime := 0;
     waitingForNextLine := false; waitStartTime := 0;
     displayedLines := []; isComplete := false; currentLineIndex := 0;
     scheduled := true |}.

(** The browser calls the outstanding callback once per display refresh,
    with that refresh's time stamp, as long as one is outstanding. *)
Definition tick (d : Driver) (timestamp : Q) : Driver :=
  if scheduled d then animate timestamp d else d.

Definition run (timestamps : list Q) (d : Driver) : Driver :=
  fold_left tick timestamps d.

(** [skipToEnd]. *)
Definition skipToEnd (d : Driver) : Driver :=
  {| d_lineIdx := d_lineIdx d; d_charIdx := d_charIdx d; d_lastTime := d_lastTime d;
     waitingForNextLine := waitingForNextLine d; waitStartTime := waitStartTime d;
     displayedLines := map (fun line => Some {| shown_text := line; complete := true |}) lines_;
     isComplete := true; currentLineIndex := length lines_;
     scheduled := false |}.
End LiveDriver.

(** The driver as [Terminal] mounts it on parsed entries:
    [useMultiLineTyping(lineTexts, typingSpeed, 300, enabled,
    { outputMode: config.outputMode || 'typing', lineInfo: parsedLineInfo })],
    run on the given callback time stamps. The typing speed is taken from
    [options]: the export passes [config.typingSpeed] there, the same value
    [Terminal] passes to the hook. *)
Definition lineTexts (parsedLineInfo : list Entry) : list string := map text parsedLineInfo.

Definition terminal_run (parsedLineInfo : list Entry) (config : Config) (options : Options)
    (timestamps : list Q) : Driver :=
  run (lineTexts parsedLineInfo) (typingSpeed options) 300 (effectiveMode config)
      (Some parsedLineInfo) timestamps driver_start.


(** ** Sample inputs used by the examples below *)

(** A fixed-pitch metric: every character is 0.6 of the font size wide. *)
Definition monospace (fontSize : Q) (family text : string) : Q :=
  (fontSize * 0.6 * inject_Z (Z.of_nat (String.length text)))%Q.

Definition sample_config : Config :=
  {| fontSize := 14; padding := 16; lineHeight := 1.5; borderRadius := 8;
     showTitle := true; font := ""; promptText := "$ "; cursorStyle := "block";
     outputMode := "typing" |}.

Definition sample_theme : Theme :=
  {| prompt := "#50fa7b"; foreground := "#f8f8f2"; comment := "#6272a4";
     cursor := "#f8f8f2" |}.

Definition sample_options : Options :=
  {| targetFrameCount := 40; typingSpeed := 50; targetWidth := None; targetHeight := None |}.

(** ** Notions used to state the properties *)

Definition is_line_cursor (i : nat) (p : Paint) : Prop :=
  exists color r, p = LineCursor i color r.

(** The fully revealed display line of an entry, and the display lines with
    the first [k] entries fully revealed. *)
Definition full_line (e : Entry) : option DisplayLine :=
  Some {| line_text := text e; line_showPrompt := showPrompt e |}.

Definition revealed (parsedLines : list Entry) (k : nat) : list (option DisplayLine) :=
  full_line <$> take k parsedLines.

(** Entry [e] at index [k] with its first [j] characters shown. *)
Definition partial_line (e : Entry) (j : nat) : option DisplayLine :=
  Some {| line_text := substring0 j (text e); line_showPrompt := showPrompt e |}.

(** [a] shows no more than [b]: every line present in [a] is present in [b]
    with a text that extends it. *)
Definition lines_le (a b : list (option DisplayLine)) : Prop :=
  forall i l, a !! i = Some (Some l) ->
    exists l', b !! i = Some (Some l') /\
      String.prefix (line_text l) (line_text l') = true /\
      (String.length (line_text l) <= String.length (line_text l'))%nat.

(** The frames [typing] emits for entry [e] at index [k], the character
    counter being [c] when the line starts. *)
Definition typed_frames (parsedLines : list Entry) (charsPerFrame : option nat) (speed : Q)
    (k : nat) (e : Entry) (c : nat) (upto : nat) : list TimelineFrame :=
  flat_map (fun charIdx =>
              if counter_hits charsPerFrame (S (c + charIdx))
                 || (charIdx =? String.length (text e) - 1)%nat
              then [ {| tf_lines := revealed parsedLines k ++ [partial_line e (charIdx + 1)];
                        tf_cursorLineIndex := k; tf_delay := Qmax 30 speed |} ]
              else [])
           (seq 0 upto).

(** Frames in emission order never take anything back. *)
Definition chain (fs : list TimelineFrame) : Prop :=
  forall i j fi fj, (i <= j)%nat ->
    fs !! i = Some fi -> fs !! j = Some fj ->
    lines_le (tf_lines fi) (tf_lines fj).

(** A frame emitted while the loop moves from line [k] to line [k']: the
    first [k] lines are fully shown, no line from [k'] on is present, nothing
    exceeds the entries' texts, and no slot is a hole. *)
Definition frame_ok (parsedLines : list Entry) (k k' : nat) (f : TimelineFrame) : Prop :=
  take k (tf_lines f) = revealed parsedLines k /\
  (length (tf_lines f) <= k')%nat /\
  lines_le (tf_lines f) (revealed parsedLines k') /\
  Forall is_Some (tf_lines f).

Definition segment (parsedLines : list Entry) (k k' : nat) (fs : list TimelineFrame) : Prop :=
  Forall (frame_ok parsedLines k k') fs /\ chain fs.

(** The driver's display with the first [k] lines complete, and with line
    [k] being typed, [j] characters in. *)
Definition done_lines (lines_ : list string) (k : nat) : list (option ShownLine) :=
  (fun t => Some {| shown_text := t; complete := true |}) <$> take k lines_.

Definition typing_lines (lines_ : list string) (k j : nat) (line : string)
    : list (option ShownLine) :=
  done_lines lines_ k ++
  match j with
  | O => []
  | S _ => [Some {| shown_text := substring0 j line; complete := false |}]
  end.

(** The states the driver can be in: typing line [k], waiting after line
    [k], or finished on the last line. *)
Inductive driver_inv (lines_ : list string) : Driver -> Prop :=
| inv_typing k j line lt ws :
    lines_ !! k = Some line -> (j <= String.length line)%nat ->
    driver_inv lines_
      {| d_lineIdx := k; d_charIdx := j; d_lastTime := lt;
         waitingForNextLine := false; waitStartTime := ws;
         displayedLines := typing_lines lines_ k j line;
         isComplete := false; currentLineIndex := k; scheduled := true |}
| inv_waiting k j lt ws :
    (S k < length lines_)%nat ->
    driver_inv lines_
      {| d_lineIdx := k; d_charIdx := j; d_lastTime := lt;
         waitingForNextLine := true; waitStartTime := ws;
         displayedLines := done_lines lines_ (S k);
         isComplete := false; currentLineIndex := k; scheduled := true |}
| inv_finished k j lt w ws :
    S k = length lines_ ->
    driver_inv lines_
      {| d_lineIdx := k; d_charIdx := j; d_lastTime := lt;
         waitingForNextLine := w; waitStartTime := ws;
         displayedLines := done_lines lines_ (S k);
         isComplete := true; currentLineIndex := k; scheduled := false |}.

(** The last callback ran at time [t]. *)
Definition timed (d : Driver) (t : Q) : Prop :=
  if waitingForNextLine d then waitStartTime d = t else d_lastTime d = t.

(** Callbacks still needed when every one of them makes progress. *)
Definition driver_work (lines_ : list string) (d : Driver) : nat :=
  (sum_list_with (fun s => String.length s + 2) (drop (S (d_lineIdx d)) lines_)
   + (if waitingForNextLine d then 1
      else 2 + (String.length (default "" (lines_ !! d_lineIdx d)) - d_charIdx d)))%nat.

(** A refresh interval long enough for one character and for the pause
    between lines. *)
Definition slow_refresh (speed lineDelay : Q) : Q := Qmax 1 (Qmax speed lineDelay).

(** A cursor glyph painted on display line [i]. *)
Definition cursor_on_line (c : Canvas) (i : nat) : Prop :=
  exists color r, LineCursor i color r ∈ painted c.

(** ** Input splitting ([App]: [inputText.split('\n').filter(...)]) *)

(** [line.trim() !== ''] *)
Definition nonblank (line : string) : bool := negb (String.eqb (trim line) "").

(** The [filter] callback applied along the array: a line is kept when it is
    not blank, or when some later line ([arr.slice(index + 1)]) is not. *)
Fixpoint keep_lines (arr : list string) : list string :=
  match arr with
  | [] => []
  | line :: rest =>
      if nonblank line then line :: keep_lines rest
      else
        let hasContentAfter := existsb nonblank rest in
        if hasContentAfter then line :: keep_lines rest else keep_lines rest
  end.

Definition inputLines (inputText : string) : list string :=
  keep_lines (split_nl inputText).

(** The parser's loop started with a given block flag. *)
Definition parse_from (flag : bool) (inputLines : list string) : list Entry :=
  result (fold_left parse_line inputLines {| result := []; inInstantBlock := flag |}).

(** The block flag after scanning the given lines, starting from [flag]. *)
Definition flag_after (flag : bool) (inputLines : list string) : bool :=
  inInstantBlock (fold_left parse_line inputLines {| result := []; inInstantBlock := flag |}).

(** ** Fitting a capture into a preset ([exportAsPNG], [copyAsSVG]) *)

Record Placement := {
  drawX : Q;
  drawY : Q;
  placedWidth : Q;
  placedHeight : Q;
}.

(** The placement computed for a capture of [canvasWidth] by [canvasHeight]
    inside a preset canvas of [resizedWidth] by [resizedHeight]. *)
Definition placeCapture (resizedWidth resizedHeight canvasWidth canvasHeight : Q) : Placement :=
  let outputScale := 2%Q in
  let padding := (10 * outputScale)%Q in
  let maxWidth := (resizedWidth - padding * 2)%Q in
  let maxHeight := (resizedHeight - padding * 2)%Q in
  let aspectRatio := (canvasWidth / canvasHeight)%Q in
  let targetWidth := maxWidth in
  let targetHeight := (maxWidth / aspectRatio)%Q in
  let '(targetWidth, targetHeight) :=
    if Qlt_le_dec maxHeight targetHeight
    then ((maxHeight * aspectRatio)%Q, maxHeight)
    else (targetWidth, targetHeight) in
  {| drawX := (padding + (maxWidth - targetWidth) / 2)%Q;
     drawY := (padding + (maxHeight - targetHeight) / 2)%Q;
     placedWidth := targetWidth;
     placedHeight := targetHeight |}.

(** ** Progress metric of the hook *)

Definition hook_totalChars (lines_ : list string) : nat :=
  fold_left (fun sum line => (sum + String.length line)%nat) lines_ 0%nat.

(** [line?.text?.length || 0] summed over the displayed lines. *)
Definition hook_typedChars (displayed : list (option ShownLine)) : nat :=
  fold_left (fun sum line =>
               (sum + match line with
                      | Some l => String.length (shown_text l)
                      | None => 0
                      end)%nat)
            displayed 0%nat.

Definition hook_progress (lines_ : list string) (displayed : list (option ShownLine)) : Q :=
  if (0 <? hook_totalChars lines_)%nat
  then (inject_Z (Z.of_nat (hook_typedChars displayed))
        / inject_Z (Z.of_nat (hook_totalChars lines_)))%Q
  else 0%Q.

(** ** What the live [Terminal] component shows *)

Record ForcedDisplay := {
  forced_lines : list (option ShownLine);
  forced_complete : bool;
  forced_currentLineIndex : nat;
}.

Record TerminalProps := {
  isAnimating : bool;
  showComplete : bool;
  forcedDisplayState : option ForcedDisplay;
}.

(** One rendered line: its text, whether the prompt precedes it, and whether
    the cursor follows it. *)
Record LineView := {
  lv_text : string;
  lv_showPrompt : bool;
  lv_cursor : bool;
}.

Record TerminalView := {
  view_lines : list LineView;
  view_restingCursor : bool;   (* the cursor on a new line after the last one *)
  view_emptyState : bool;      (* the "Type something to begin..." hint *)
  view_progressBar : bool;
}.

Section LiveView.
Variable parsedLineInfo : list Entry.
Variable props : TerminalProps.
(** What the hook returned: [displayedLines], [isComplete], [currentLineIndex]. *)
Variable hookLines : list (option ShownLine).
Variable hookComplete : bool.
Variable hookIndex : nat.

(** Display priority: [forcedDisplayState], then [showComplete], then the hook. *)
Definition effectiveDisplayedLines : list (option ShownLine) :=
  match forcedDisplayState props with
  | Some forced => forced_lines forced
  | None =>
      if showComplete props
      then map (fun text => Some {| shown_text := text; complete := true |})
               (lineTexts parsedLineInfo)
      else hookLines
  end.

Definition effectiveIsComplete : bool :=
  match forcedDisplayState props with
  | Some forced => forced_complete forced
  | None => if showComplete props then true else hookComplete
  end.

Definition effectiveCurrentLineIndex : nat :=
  match forcedDisplayState props with
  | Some forced => forced_currentLineIndex forced
  | None => if showComplete props then length (lineTexts parsedLineInfo) else hookIndex
  end.

(** The callback of [effectiveDisplayedLines.map] on a line object. *)
Definition line_view (index : nat) (line : ShownLine) : LineView :=
  let showPrompt :=
    match parsedLineInfo !! index with
    | Some lineInfo => showPrompt lineInfo
    | None => false
    end in
  let isCurrentLine := (index =? effectiveCurrentLineIndex)%nat in
  let showCursor :=
    negb (showComplete props)
    && negb (bool_decide (is_Some (forcedDisplayState props)))
    && negb (complete line) && isCurrentLine in
  {| lv_text := shown_text line; lv_showPrompt := showPrompt; lv_cursor := showCursor |}.

(** A slot without a line object makes [line.complete] throw. *)
Definition render_line (index : nat) (slot : option ShownLine) : option LineView :=
  match slot with
  | None => None
  | Some line => Some (line_view index line)
  end.

Definition render_terminal : option TerminalView :=
  match mapM id (imap render_line effectiveDisplayedLines) with
  | None => None
  | Some ls =>
      Some {| view_lines := ls;
              view_restingCursor :=
                effectiveIsComplete && (0 <? length effectiveDisplayedLines)%nat;
              view_emptyState :=
                (length effectiveDisplayedLines =? 0)%nat
                && negb (isAnimating props) && negb (showComplete props);
              view_progressBar :=
                isAnimating props && negb effectiveIsComplete && negb (showComplete props) |}
  end.
End LiveView.

(** The live preview while the animation plays: [Terminal] with
    [isAnimating], no [showComplete], no forced state, fed by the driver. *)
Definition playing : TerminalProps :=
  {| isAnimating := true; showComplete := false; forcedDisplayState := None |}.

Definition live_view (parsedLineInfo : list Entry) (d : Driver) : option TerminalView :=
  render_terminal parsedLineInfo playing (displayedLines d) (isComplete d) (currentLineIndex d).

(** ** More notions used to state the properties *)

Definition is_cursor_paint (p : Paint) : bool :=
  match p with
  | LineCursor _ _ _ | RestingCursor _ _ => true
  | _ => false
  end.

Definition is_resting_cursor (p : Paint) : bool :=
  match p with
  | RestingCursor _ _ => true
  | _ => false
  end.

(** How many cursor glyphs a canvas carries. *)
Definition cursor_count (c : Canvas) : nat := length (List.filter is_cursor_paint (painted c)).

(** [lineWidth] of the measuring loop: the width of the row that carries a
    line's text, that is the last part of the prompt, if shown, followed by
    the text. The earlier parts of a multi-line prompt, painted on rows of
    their own, are not measured. *)
Definition line_width (measureText : Q -> string -> string -> Q) (config : Config) (scale : Q)
    (line : DisplayLine) : Q :=
  let measure := measureText (fontSize config * scale)%Q (fontFamily config) in
  ((if line_showPrompt line && truthy_string (promptText config)
    then measure (List.last (split_nl (promptText config)) "")
    else 0) + measure (line_text line))%Q.

(** How many times the running character count has been a multiple of
    [charsPerFrame] when it stands at [c]. *)
Definition throttle_hits (charsPerFrame : option nat) (c : nat) : nat :=
  match charsPerFrame with
  | Some k => (c / k)%nat
  | None => 0%nat
  end.

(** [line?.text?.length || 0] *)
Definition slot_chars (slot : option ShownLine) : nat :=
  match slot with Some l => String.length (shown_text l) | None => 0%nat end.

(** ** Parser facts *)

Lemma fold_parse_line_result lines : forall st,
  result (fold_left parse_line lines st) =
  result st ++ result (fold_left parse_line lines
                         {| result := []; inInstantBlock := inInstantBlock st |}).
Proof.
  induction lines as [|line lines IH]; intros st; simpl.
  - by rewrite app_nil_r.
  - rewrite IH. symmetry. rewrite IH. symmetry.
    unfold parse_line.
    destruct (String.eqb (trim line) "!!"); simpl.
    + reflexivity.
    + destruct (startsWith ">" (trimStart line)); simpl;
        by rewrite <- app_assoc.
Qed.

Lemma parse_from_parses lines : forall b,
  parses b lines
    (result (fold_left parse_line lines {| result := []; inInstantBlock := b |})).
Proof.
  induction lines as [|line lines IH]; intros b; simpl.
  - constructor.
  - unfold parse_line at 2. simpl.
    destruct (String.eqb (trim line) "!!") eqn:Hm.
    + apply String.eqb_eq in Hm. apply parses_marker; [done|]. apply IH.
    + apply String.eqb_neq in Hm.
      destruct (startsWith ">" (trimStart line)) eqn:Hc; simpl;
        rewrite fold_parse_line_result; simpl.
      * apply parses_command; auto.
      * apply parses_output; auto.
Qed.

Lemma parse_from_length lines : forall b,
  length (result (fold_left parse_line lines {| result := []; inInstantBlock := b |})) =
  length (filter (fun l => is_marker_line l = false) lines).
Proof.
  induction lines as [|line lines IH]; intros b; simpl; [done|].
  rewrite filter_cons. unfold parse_line at 2. simpl.
  destruct (decide (is_marker_line line = false)) as [Hm|Hm];
    unfold is_marker_line in Hm.
  - rewrite Hm.
    destruct (startsWith ">" (trimStart line)); simpl;
      rewrite fold_parse_line_result; simpl; by rewrite IH.
  - apply not_false_is_true in Hm. rewrite Hm. apply IH.
Qed.

(** C6. [parseLines] scans the lines in order with the block flag initially
    false: a line that trims to the marker toggles the flag and yields no
    entry, a line whose left-trimmed content starts with [>] yields a
    Command entry (marker and following white space stripped, prompt shown),
    every other line yields an Output entry carrying the current flag, and no
    other line is dropped; on ["> whoami"; "root"] it yields the two entries
    of scenario A. *)
Theorem parseLines_follows_spec :
  (forall lines promptText, parses false lines (parseLines lines promptText)) /\
  (forall lines promptText,
     length (parseLines lines promptText) =
     length (filter (fun l => is_marker_line l = false) lines)) /\
  (forall promptText,
     parseLines ["> whoami"; "root"] promptText =
     [ {| type := "command"; text := "whoami"; showPrompt := true; instant := false |};
       {| type := "output"; text := "root"; showPrompt := false; instant := false |} ]).
Proof.
  split; [|split].
  - intros. apply parse_from_parses.
  - intros. apply parse_from_length.
  - reflexivity.
Qed.

Lemma parse_line_commands lines : forall st,
  Forall (fun e => type e = "command" -> showPrompt e = true /\ instant e = false) (result st) ->
  Forall (fun e => type e = "command" -> showPrompt e = true /\ instant e = false)
         (result (fold_left parse_line lines st)).
Proof.
  induction lines as [|line lines IH]; intros st Hst; simpl; [done|].
  apply IH. unfold parse_line.
  destruct (String.eqb (trim line) "!!"); simpl; [done|].
  destruct (startsWith ">" (trimStart line)); simpl;
    apply Forall_app; split; try done;
    apply Forall_singleton; simpl; [done | discriminate].
Qed.

(** C3 (as amended). The parser copies the block flag into Output entries
    only: every Command entry it yields has [instant = false], also between
    two markers, and the generator therefore never classifies a parsed
    Command entry as instant, whatever the output mode. *)
Theorem parsed_command_never_instant lines promptText e :
  e ∈ parseLines lines promptText ->
  type e = "command" ->
  showPrompt e = true /\ instant e = false /\
  forall mode, shouldBeInstant mode e = false.
Proof.
  intros Hin Hty.
  pose proof (parse_line_commands lines {| result := []; inInstantBlock := false |}) as H.
  specialize (H (Forall_nil_2 _)).
  rewrite Forall_forall in H. destruct (H e Hin Hty) as [Hp Hi].
  repeat split; try done.
  intros mode. unfold shouldBeInstant. rewrite Hp, Hi.
  by rewrite andb_false_r.
Qed.

Lemma parsed_command_never_instant_witness :
  showPrompt {| type := "command"; text := "ls"; showPrompt := true; instant := false |} = true /\
  instant {| type := "command"; text := "ls"; showPrompt := true; instant := false |} = false /\
  forall mode,
    shouldBeInstant mode
      {| type := "command"; text := "ls"; showPrompt := true; instant := false |} = false.
Proof.
  apply (parsed_command_never_instant ["!!"; "> ls"; "!!"] "").
  - vm_compute. apply list_elem_of_here.
  - reflexivity.
Defined.

(** A Command line between two markers: its entry is not marked instant. *)
Lemma command_in_block_not_instant :
  ~ (forall e, e ∈ parseLines ["!!"; "> ls"; "!!"] "" ->
               type e = "command" -> instant e = true).
Proof.
  intros H.
  specialize (H {| type := "command"; text := "ls"; showPrompt := true; instant := false |}).
  simpl in H. discriminate H; [vm_compute; apply list_elem_of_here | reflexivity].
Qed.

(** ** Empty script *)

Section EmptyScript.
Variable measureText : Q -> string -> string -> Q.

Lemma createFrame_dense adj theme size ls ci d :
  exists f,
    createFrame measureText adj theme size
      {| tf_lines := Some <$> ls; tf_cursorLineIndex := ci; tf_delay := d |} = Some f /\
    delay f = d.
Proof.
  unfold createFrame, createTerminalCanvas, dense. simpl.
  rewrite mapM_fmap_Some by done.
  destruct (negb (Qeq_bool size.1 0) && negb (Qeq_bool size.2 0));
    [|destruct (calculateCanvasDimensions measureText adj theme ls 2)];
    eexists; split; reflexivity.
Qed.

(** C4 (as amended). For the empty entries sequence the generator returns
    two frames: the warm-up frame with an empty line set held 500 ms, then
    the final frame, also with an empty line set and the cursor at index 0,
    held 2000 ms; there is no typed or instant frame between them. *)
Theorem empty_script_two_frames config theme options :
  generateTimeline [] config options =
    [ {| tf_lines := []; tf_cursorLineIndex := 0; tf_delay := 500 |};
      {| tf_lines := []; tf_cursorLineIndex := 0; tf_delay := 2000 |} ] /\
  exists warmup final,
    generateAnimationFrames measureText [] config theme options = Some [warmup; final] /\
    delay warmup = 500%Q /\ delay final = 2000%Q.
Proof.
  split; [reflexivity|].
  unfold generateAnimationFrames.
  change (generateTimeline [] config options) with
    [ {| tf_lines := Some <$> []; tf_cursorLineIndex := 0; tf_delay := 500 |};
      {| tf_lines := Some <$> []; tf_cursorLineIndex := 0; tf_delay := 2000 |} ].
  set (adj := adjustedConfigOf _ _ _ _ _).
  set (size := finalCanvasSize _ _ _ _ _).
  destruct (createFrame_dense adj theme size [] 0 500) as (f1 & Hf1 & Hd1).
  destruct (createFrame_dense adj theme size [] 0 2000) as (f2 & Hf2 & Hd2).
  exists f1, f2. split; [|done].
  apply mapM_Some. repeat constructor; done.
Qed.
End EmptyScript.

(** On the empty script the generator does not stop at the warm-up frame. *)
Lemma empty_script_not_one_frame :
  ~ (exists warmup,
       generateAnimationFrames monospace [] sample_config sample_theme sample_options
       = Some [warmup]).
Proof.
  intros [w Hw]. vm_compute in Hw. discriminate Hw.
Qed.

(** ** GIF delays *)

Lemma js_round_nearest q :
  (q - (1 # 2) < inject_Z (js_round q))%Q /\ (inject_Z (js_round q) <= q + (1 # 2))%Q.
Proof.
  unfold js_round. split.
  - pose proof (Qlt_floor (q + (1 # 2))) as H.
    rewrite inject_Z_plus in H. change (inject_Z 1) with 1%Q in H. lra.
  - apply Qfloor_le.
Qed.

(** What [createGIF] hands to the encoder: one [writeFrame] call per frame,
    in order, with [delay = max(2, round(hold / 10))], the nearest integer
    with ties up. *)
Lemma createGIF_calls (frames : list Frame) :
  frames <> [] ->
  createGIF frames = inr (map write_frame frames) /\
  Forall (fun f =>
            wf_delay (write_frame f) = Z.max 2 (js_round (delay f / 10)) /\
            (delay f / 10 - (1 # 2) < inject_Z (js_round (delay f / 10)))%Q /\
            (inject_Z (js_round (delay f / 10)) <= delay f / 10 + (1 # 2))%Q /\
            (2 <= wf_delay (write_frame f))%Z)
         frames.
Proof.
  intros Hne. split; [by destruct frames|].
  apply Forall_forall. intros f _.
  pose proof (js_round_nearest (delay f / 10)) as [Hlo Hhi].
  unfold write_frame; simpl. repeat split; try done; lia.
Qed.

(** C10. [createGIF] converts each hold to hundredths of a second itself,
    [max(2, round(hold / 10))], and hands the result to [writeFrame] as the
    [delay] option. An encoder that takes that option in milliseconds
    divides by ten once more: the file then holds
    [round(max(2, round(hold / 10)) / 10)] hundredths for each frame, a
    tenth of the hold, so a frame held 500 ms is stored as 5 (50 ms) and a
    frame held 4 ms as 0, not as the 50 and 2 the conversion aims at. *)
Theorem gif_delay_divided_twice encodeDelay (frames : list Frame) :
  takes_milliseconds encodeDelay ->
  frames <> [] ->
  createGIF frames = inr (map write_frame frames) /\
  Forall (fun f => wf_delay (write_frame f) = Z.max 2 (js_round (delay f / 10))) frames /\
  storedDelays encodeDelay frames
    = inr (map (fun f =>
                  js_round (inject_Z (Z.max 2 (js_round (delay f / 10))) / 10))
               frames).
Proof.
  intros Hms Hne.
  destruct (createGIF_calls frames Hne) as [Hcalls Hall].
  split; [done|]. split.
  - eapply Forall_impl; [exact Hall|]. by intros f [H _].
  - unfold storedDelays. rewrite Hcalls. f_equal.
    rewrite map_map. apply map_ext. intros f. by rewrite Hms.
Qed.

Lemma gif_delay_divided_twice_witness :
  let encodeDelay := fun d : Z => js_round (inject_Z d / 10) in
  let frames :=
    [ {| canvas := {| width := 800; height := 200; painted := [] |}; delay := 500 |};
      {| canvas := {| width := 800; height := 200; painted := [] |}; delay := 4 |} ] in
  createGIF frames = inr (map write_frame frames) /\
  Forall (fun f => wf_delay (write_frame f) = Z.max 2 (js_round (delay f / 10))) frames /\
  storedDelays encodeDelay frames = inr [5; 0]%Z.
Proof.
  intros encodeDelay frames.
  apply (gif_delay_divided_twice encodeDelay frames).
  - intros d. reflexivity.
  - discriminate.
Defined.

(** ** Instant or typed: the two classification rules *)

(** C2. The driver's rule and the generator's rule differ by design: the
    driver classifies by the output mode alone and never reads an entry's
    [instant] flag, while the generator also reveals at once every entry
    whose flag is set. For the entry at an index, the driver types it unless
    the mode is instant and it is an Output; the two rules agree whenever
    the entry's flag is clear, and in general exactly when it is not the case
    that the flag is set while the mode is not instant or the entry is a
    Command. *)
Theorem driver_ignores_instant_flag mode entries idx e :
  entries !! idx = Some e ->
  shouldTypeLine mode (Some entries) idx
    = negb (String.eqb mode "instant" && negb (showPrompt e)) /\
  (instant e = false ->
   negb (shouldTypeLine mode (Some entries) idx) = shouldBeInstant mode e) /\
  (negb (shouldTypeLine mode (Some entries) idx) = shouldBeInstant mode e <->
   ~ (instant e = true /\ (mode <> "instant" \/ showPrompt e = true))).
Proof.
  intros Hidx.
  unfold shouldTypeLine, shouldBeInstant. rewrite Hidx.
  destruct (String.eqb_spec mode "instant") as [->|Hm]; simpl;
    destruct (showPrompt e), (instant e); simpl;
    (split; [reflexivity|]; split; [intros H; congruence|]);
    (split;
     [ intros H [Hi [Hc|Hc]]; congruence
     | intros H; first
         [ reflexivity
         | exfalso; apply H; split;
           [reflexivity | first [left; assumption | right; reflexivity]] ] ]).
Qed.

Lemma driver_ignores_instant_flag_witness :
  let e := {| type := "output"; text := "a.txt"; showPrompt := false; instant := true |} in
  shouldTypeLine "typing" (Some [e]) 0
    = negb (String.eqb "typing" "instant" && negb (showPrompt e)) /\
  (instant e = false ->
   negb (shouldTypeLine "typing" (Some [e]) 0) = shouldBeInstant "typing" e) /\
  (negb (shouldTypeLine "typing" (Some [e]) 0) = shouldBeInstant "typing" e <->
   ~ (instant e = true /\ ("typing" <> "instant" \/ showPrompt e = true))).
Proof.
  intros e.
  apply (driver_ignores_instant_flag "typing" [e] 0%nat e).
  reflexivity.
Defined.

(** The two rules do not classify alike: with [outputMode = "typing"] the
    Output line that [parseLines] marks instant inside a [!!] block is typed
    by the driver (after two callbacks only its first character is shown)
    and revealed in one frame by the generator. *)
Lemma driver_types_marked_output :
  let e := {| type := "output"; text := "a.txt"; showPrompt := false; instant := true |} in
  parseLines ["!!"; "a.txt"; "!!"] "" = [e] /\
  negb (shouldTypeLine "typing" (Some [e]) 0) <> shouldBeInstant "typing" e /\
  shouldTypeLine "typing" (Some [e]) 0 = true /\
  shouldBeInstant "typing" e = true /\
  displayedLines (run ["a.txt"] 50 300 "typing" (Some [e]) [16; 66]%Q driver_start)
    = [Some {| shown_text := "a"; complete := false |}] /\
  map tf_lines (timeline [e] "typing" (Some 1%nat) 50) =
    [ []; [Some {| line_text := "a.txt"; line_showPrompt := false |}];
      [Some {| line_text := "a.txt"; line_showPrompt := false |}] ].
Proof.
  intros e. split; [reflexivity|]. split; [discriminate|].
  repeat split; reflexivity.
Qed.

(** ** Font auto-scaling *)

Section AutoScale.
Variable measureText : Q -> string -> string -> Q.

Lemma js_floor_le q : (js_floor q <= q)%Q.
Proof. apply Qfloor_le. Qed.

Lemma scaled_below (a fit : Q) : (0 < a)%Q -> (fit < 1)%Q -> (js_floor (a * fit) < a)%Q.
Proof.
  intros Ha Hfit. pose proof (js_floor_le (a * fit)) as Hfl.
  assert (a * fit < a * 1)%Q as H by (apply Qmult_lt_l; done).
  lra.
Qed.

Lemma truthy_number_Some q : ~ (q == 0)%Q -> truthy_number (Some q) = true.
Proof.
  intros Hq. unfold truthy_number. apply negb_true_iff.
  destruct (Qeq_bool q 0) eqn:E; [|done]. by apply Qeq_bool_iff in E.
Qed.

(** C9 (as amended). With fixed target dimensions and a fit ratio below 1,
    the effective font size is [max(8, floor(fontSize * fit))]: never below
    8, and strictly below the configured size whenever that exceeds 8; the
    effective padding is [max(8, floor(padding * fit))], never below 8 and
    not above the configured padding whenever that is at least 8. With a
    fit ratio of 1 or more the configuration is unchanged. *)
Theorem autoscale_only_down parsedLines config theme options tw th :
  targetWidth options = Some tw ->
  targetHeight options = Some th ->
  ~ (tw == 0)%Q -> ~ (th == 0)%Q ->
  let fit := fitRatio measureText config theme (finalLinesOf parsedLines) 2
               (tw * 2) (th * 2) in
  let adj := adjustedConfigOf measureText parsedLines config theme options in
  ((fit < 1)%Q ->
     fontSize adj = Qmax 8 (js_floor (fontSize config * fit)) /\
     (8 <= fontSize adj)%Q /\
     ((8 < fontSize config)%Q -> (fontSize adj < fontSize config)%Q) /\
     padding adj = Qmax 8 (js_floor (padding config * fit)) /\
     (8 <= padding adj)%Q /\
     ((8 <= padding config)%Q -> (padding adj <= padding config)%Q)) /\
  ((1 <= fit)%Q -> adj = config).
Proof.
  intros Hw Hh Hw0 Hh0 fit adj. subst adj. unfold adjustedConfigOf.
  rewrite Hw, Hh, !truthy_number_Some by done. simpl. fold fit.
  destruct (Qlt_le_dec fit 1) as [Hlt|Hge]; split; intros Hfit;
    try (exfalso; lra); [|done]. simpl.
  repeat split.
  - apply Q.le_max_l.
  - intros Hbig. apply Q.max_lub_lt; [done|]. apply scaled_below; lra.
  - apply Q.le_max_l.
  - intros Hbig. apply Q.max_lub; [done|].
    apply Qlt_le_weak, scaled_below; lra.
Qed.

Lemma autoscale_without_target parsedLines config theme options :
  targetWidth options = None \/ targetHeight options = None ->
  adjustedConfigOf measureText parsedLines config theme options = config.
Proof.
  intros [H|H]; unfold adjustedConfigOf; rewrite H; [done|].
  by destruct (targetWidth options).
Qed.
End AutoScale.

Lemma autoscale_only_down_witness :
  let options := {| targetFrameCount := 40; typingSpeed := 50;
                    targetWidth := Some 200%Q; targetHeight := Some 50%Q |} in
  let fit := fitRatio monospace sample_config sample_theme (finalLinesOf []) 2
               (200 * 2) (50 * 2) in
  let adj := adjustedConfigOf monospace [] sample_config sample_theme options in
  ((fit < 1)%Q ->
     fontSize adj = Qmax 8 (js_floor (fontSize sample_config * fit)) /\
     (8 <= fontSize adj)%Q /\
     ((8 < fontSize sample_config)%Q -> (fontSize adj < fontSize sample_config)%Q) /\
     padding adj = Qmax 8 (js_floor (padding sample_config * fit)) /\
     (8 <= padding adj)%Q /\
     ((8 <= padding sample_config)%Q -> (padding adj <= padding sample_config)%Q)) /\
  ((1 <= fit)%Q -> adj = sample_config).
Proof.
  apply (autoscale_only_down monospace [] sample_config sample_theme
           {| targetFrameCount := 40; typingSpeed := 50;
              targetWidth := Some 200%Q; targetHeight := Some 50%Q |} 200 50);
    [reflexivity | reflexivity | discriminate | discriminate].
Defined.

(** A configured font size of 8 is not reduced, and a padding of 4 grows. *)
Lemma autoscale_small_font_not_reduced :
  let config := {| fontSize := 8; padding := 4; lineHeight := 1; borderRadius := 8;
                   showTitle := false; font := ""; promptText := "$ ";
                   cursorStyle := "block"; outputMode := "typing" |} in
  let options := {| targetFrameCount := 40; typingSpeed := 50;
                    targetWidth := Some 200%Q; targetHeight := Some 50%Q |} in
  let adj := adjustedConfigOf monospace [] config sample_theme options in
  (fitRatio monospace config sample_theme (finalLinesOf []) 2 (200 * 2) (50 * 2) == 1 # 2)%Q /\
  ~ (fontSize adj < fontSize config)%Q /\
  (padding config < padding adj)%Q.
Proof.
  vm_compute. repeat split; intros H; discriminate H.
Qed.

(** ** Where the export painter puts the cursor *)

Section PainterFacts.
Variable measureText : Q -> string -> string -> Q.

Lemma draw_prompt_no_line_cursor config fs x y i p :
  p ∈ (draw_prompt measureText config fs x y).1.1 -> ~ is_line_cursor i p.
Proof.
  unfold draw_prompt.
  destruct (1 <? length (split_nl (promptText config)))%nat; simpl.
  - rewrite elem_of_app, list_elem_of_singleton.
    intros [Hin| ->] (c & r & Heq); [|discriminate].
    apply elem_of_lookup_imap in Hin as (k & part & -> & _). discriminate.
  - rewrite list_elem_of_singleton. intros -> (c & r & Heq). discriminate.
Qed.

Lemma draw_lines_cursor config theme sc ci scale ls : forall k y i,
  (exists p, p ∈ (draw_lines measureText config theme sc ci scale ls k y).1 /\
             is_line_cursor i p) <->
  sc = true /\ ci = i /\ (k <= i < k + length ls)%nat.
Proof.
  induction ls as [|line rest IH]; intros k y i.
  - simpl. split.
    + intros (p & Hin & _). by apply elem_of_nil in Hin.
    + intros (_ & _ & Hk). lia.
  - cbn [draw_lines].
    set (fs := (fontSize config * scale)%Q).
    set (pad := (padding config * scale)%Q).
    destruct (if line_showPrompt line && truthy_string (promptText config)
              then draw_prompt measureText config fs pad y
              else ([], pad, y)) as [[promptPaint currentX] currentY] eqn:Hprompt.
    assert (forall p, p ∈ promptPaint -> ~ is_line_cursor i p) as Hpp.
    { intros p Hp.
      destruct (line_showPrompt line && truthy_string (promptText config)).
      - apply (draw_prompt_no_line_cursor config fs pad y).
        by rewrite Hprompt.
      - injection Hprompt as <- _ _. by apply elem_of_nil in Hp. }
    destruct (draw_lines measureText config theme sc ci scale rest (S k)
                (currentY + fs * lineHeight config)%Q) as [restPaint endY] eqn:Hrest.
    specialize (IH (S k) (currentY + fs * lineHeight config)%Q i).
    rewrite Hrest in IH. cbn [fst] in *. cbn [length].
    split.
    + intros (p & Hin & Hcur).
      rewrite !elem_of_app in Hin.
      destruct Hin as [Hin|[Hin|[Hin|Hin]]].
      * by apply Hpp in Hin.
      * apply list_elem_of_singleton in Hin as ->.
        destruct Hcur as (c & r & Heq). discriminate.
      * destruct sc; [|by apply elem_of_nil in Hin]. simpl in Hin.
        destruct (Nat.eqb_spec ci k) as [->|Hne]; [|by apply elem_of_nil in Hin].
        apply list_elem_of_singleton in Hin as ->.
        destruct Hcur as (c & r & Heq). injection Heq as -> _ _.
        repeat split; lia.
      * destruct (proj1 IH) as (Hsc & Hci & Hrange); [by exists p|].
        repeat split; try done; lia.
    + intros (-> & <- & Hrange).
      destruct (decide (ci = k)) as [->|Hne].
      * eexists. split.
        -- rewrite !elem_of_app. right; right; left.
           simpl. rewrite Nat.eqb_refl. apply list_elem_of_here.
        -- by eexists _, _.
      * destruct (proj2 IH) as (p & Hin & Hcur); [repeat split; lia|].
        exists p. split; [|done]. rewrite !elem_of_app. by repeat right.
Qed.

Lemma drawTerminal_cursor config theme ls sc ci scale i :
  (exists p, p ∈ drawTerminal measureText config theme ls sc ci scale /\
             is_line_cursor i p) <->
  sc = true /\ ci = i /\ (i < length ls)%nat.
Proof.
  unfold drawTerminal.
  set (y0 := ((if showTitle config then (40 * scale)%Q else 0%Q) + padding config * scale)%Q).
  pose proof (draw_lines_cursor config theme sc ci scale ls 0 y0 i) as Hlines.
  destruct (draw_lines measureText config theme sc ci scale ls 0 y0)
    as [linePaint currentY] eqn:Hdl.
  cbn [fst] in Hlines.
  assert (forall p restingPaint,
            restingPaint =
              (if sc && (length ls <=? ci)%nat then
                 let '(promptPaint, cursorX, currentY) :=
                   if truthy_string (promptText config)
                   then draw_prompt measureText config (fontSize config * scale)
                          (padding config * scale) currentY
                   else ([], (padding config * scale)%Q, currentY) in
                 promptPaint ++
                   [RestingCursor (cursor theme)
                      (drawCursor (cursorX + 2 * scale) currentY (fontSize config * scale)
                         (cursorStyle config) scale)]
               else []) ->
            p ∈ restingPaint -> ~ is_line_cursor i p) as Hrest.
  { intros p restingPaint -> Hp.
    destruct (sc && (length ls <=? ci)%nat); [|by apply elem_of_nil in Hp].
    destruct (truthy_string (promptText config)).
    - destruct (draw_prompt measureText config (fontSize config * scale)
                  (padding config * scale) currentY) as [[pp cx] cy] eqn:Hdp.
      apply elem_of_app in Hp as [Hp|Hp].
      + apply (draw_prompt_no_line_cursor config (fontSize config * scale)%Q
                 (padding config * scale)%Q currentY).
        by rewrite Hdp.
      + apply list_elem_of_singleton in Hp as ->. intros (c & r & Heq). discriminate.
    - simpl in Hp. apply list_elem_of_singleton in Hp as ->.
      intros (c & r & Heq). discriminate. }
  split.
  - intros (p & Hin & Hcur). apply elem_of_app in Hin as [Hin|Hin].
    + destruct (proj1 Hlines) as (? & ? & ?); [by exists p|].
      repeat split; try done; lia.
    + exfalso. by eapply Hrest.
  - intros (Hsc & Hci & Hlen).
    destruct (proj2 Hlines) as (p & Hin & Hcur); [repeat split; try done; lia|].
    exists p. split; [|done]. apply elem_of_app. by left.
Qed.

(** C8 (as amended). In every frame the export path paints, a cursor glyph
    is put on display line [i] exactly when [i] is the frame's
    [cursorLineIndex] and that line exists; the export display state has no
    completeness flag, and the glyph is painted whether or not the line's
    text is fully revealed. *)
Theorem export_cursor_follows_index adjustedConfig theme size tf f :
  createFrame measureText adjustedConfig theme size tf = Some f ->
  forall i, cursor_on_line (canvas f) i <->
            i = tf_cursorLineIndex tf /\ (i < length (tf_lines tf))%nat.
Proof.
  unfold createFrame, createTerminalCanvas, dense. cbn [lines showCursor cursorLineIndex].
  destruct (mapM id (tf_lines tf)) as [ls|] eqn:Hdense; [|done].
  apply length_mapM in Hdense.
  intros Hf i.
  assert (painted (canvas f) =
          drawTerminal measureText adjustedConfig theme ls true (tf_cursorLineIndex tf) 2)
    as Hpaint.
  { destruct (truthy_number (Some size.1) && truthy_number (Some size.2));
      [|destruct (calculateCanvasDimensions measureText adjustedConfig theme ls 2)];
      injection Hf as <-; reflexivity. }
  unfold cursor_on_line. rewrite Hpaint, Hdense.
  pose proof (drawTerminal_cursor adjustedConfig theme ls true
                (tf_cursorLineIndex tf) 2 i) as H.
  split.
  - intros (c & r & Hin).
    destruct (proj1 H) as (_ & Hci & Hlen); [|done].
    eexists. split; [exact Hin|]. by eexists _, _.
  - intros [-> Hlen].
    destruct (proj2 H) as (p & Hin & (c & r & ->)); [done|].
    by exists c, r.
Qed.
End PainterFacts.

Lemma export_cursor_follows_index_witness :
  exists f,
    createFrame monospace sample_config sample_theme (800, 310)%Q
      {| tf_lines := [Some {| line_text := "ls"; line_showPrompt := true |}];
         tf_cursorLineIndex := 0; tf_delay := 50 |} = Some f /\
    forall i, cursor_on_line (canvas f) i <-> i = 0%nat /\ (i < 1)%nat.
Proof.
  eexists. split; [vm_compute; reflexivity|].
  apply (export_cursor_follows_index monospace sample_config sample_theme (800, 310)%Q
           {| tf_lines := [Some {| line_text := "ls"; line_showPrompt := true |}];
              tf_cursorLineIndex := 0; tf_delay := 50 |}).
  vm_compute; reflexivity.
Defined.

(** The batch frame of an instant line: the line is fully revealed in it, and
    the cursor glyph sits on that line. *)
Lemma export_cursor_on_revealed_line :
  let entries := [ {| type := "output"; text := "a.txt"; showPrompt := false; instant := true |} ] in
  exists tf f,
    generateTimeline entries sample_config sample_options !! 1%nat = Some tf /\
    generateAnimationFrames monospace entries sample_config sample_theme sample_options
      ≫= (fun fs => fs !! 1%nat) = Some f /\
    tf_lines tf !! 0%nat = Some (Some {| line_text := "a.txt"; line_showPrompt := false |}) /\
    cursor_on_line (canvas f) 0.
Proof.
  eexists _, _. split; [vm_compute; reflexivity|].
  split; [vm_compute; reflexivity|].
  split; [reflexivity|].
  eexists _, _. simpl. apply list_elem_of_further, list_elem_of_here.
Qed.

(** ** Strings: prefixes cut by [substring] *)

Lemma substring0_0 s : substring0 0 s = "".
Proof. by destruct s. Qed.

Lemma substring0_full s : substring0 (String.length s) s = s.
Proof. unfold substring0. induction s as [|c s IH]; simpl; [done|]. by rewrite IH. Qed.

Lemma prefix_refl s : String.prefix s s = true.
Proof. induction s as [|c s IH]; simpl; [done|]. by destruct (ascii_dec c c). Qed.

Lemma prefix_trans a : forall b c,
  String.prefix a b = true -> String.prefix b c = true -> String.prefix a c = true.
Proof.
  induction a as [|x a IH]; intros [|y b] [|z c]; simpl; try done.
  destruct (ascii_dec x y) as [->|]; [|done].
  destruct (ascii_dec y z) as [->|]; [|done].
  destruct (ascii_dec z z); [|done]. apply IH.
Qed.

Lemma prefix_length a : forall b,
  String.prefix a b = true -> (String.length a <= String.length b)%nat.
Proof.
  induction a as [|x a IH]; intros [|y b]; simpl; try done; try lia.
  destruct (ascii_dec x y); [|done]. intros H. apply IH in H. lia.
Qed.

Lemma prefix_substring0 s : forall j j',
  (j <= j')%nat -> String.prefix (substring0 j s) (substring0 j' s) = true.
Proof.
  unfold substring0. induction s as [|c s IH]; intros [|j] [|j'] Hle; simpl; try done; try lia.
  destruct (ascii_dec c c); [|done]. apply IH. lia.
Qed.

Lemma substring0_ge s : forall j,
  (String.length s <= j)%nat -> substring0 j s = s.
Proof.
  unfold substring0. induction s as [|c s IH]; intros [|j] H; simpl in *; try done; try lia.
  rewrite IH; [done|lia].
Qed.

Lemma prefix_substring0_full j s : String.prefix (substring0 j s) s = true.
Proof.
  destruct (Nat.le_gt_cases j (String.length s)) as [H|H].
  - rewrite <- (substring0_full s) at 2. by apply prefix_substring0.
  - rewrite substring0_ge by lia. apply prefix_refl.
Qed.

(** ** The frame timeline, iteration by iteration *)

Lemma arr_set_end {A} (arr : list (option A)) (v : A) (i : nat) :
  i = length arr -> arr_set i v arr = arr ++ [Some v].
Proof.
  intros ->. unfold arr_set. by rewrite Nat.ltb_irrefl, Nat.sub_diag.
Qed.

Lemma set_text_end (dl : list (option DisplayLine)) l s i :
  i = length dl ->
  set_text i s (dl ++ [Some l]) =
  dl ++ [Some {| line_text := s; line_showPrompt := line_showPrompt l |}].
Proof.
  intros ->. unfold set_text.
  rewrite <- (Nat.add_0_r (length dl)), alter_app_r. reflexivity.
Qed.

Section TimelineFacts.
Variable parsedLines : list Entry.
Variable mode : string.
Variable charsPerFrame : option nat.
Variable speed : Q.

Local Abbreviation shown := (revealed parsedLines).
Local Abbreviation n := (length parsedLines).

Lemma shown_length k : (k <= n)%nat -> length (shown k) = k.
Proof. intros H. unfold revealed. rewrite length_fmap, length_take. lia. Qed.

Lemma shown_S k e :
  parsedLines !! k = Some e -> shown (S k) = shown k ++ [full_line e].
Proof.
  intros H. unfold revealed. rewrite (take_S_r _ _ _ H), fmap_app. reflexivity.
Qed.

Lemma shown_run k run post :
  drop k parsedLines = run ++ post ->
  shown (k + length run) = shown k ++ (full_line <$> run).
Proof.
  intros H. unfold revealed.
  rewrite <- (take_drop k parsedLines) at 1. rewrite H.
  destruct (Nat.le_gt_cases k n) as [Hk|Hk].
  - rewrite take_app_ge by (rewrite length_take; lia).
    rewrite length_take, Nat.min_l by lia.
    replace (k + length run - k)%nat with (length run) by lia.
    rewrite take_app_length, fmap_app. reflexivity.
  - rewrite drop_ge in H by lia.
    symmetry in H. apply app_eq_nil in H as [-> ->]. simpl.
    by rewrite Nat.add_0_r, !app_nil_r, take_idemp.
Qed.

Lemma batch_loop_run run : forall post b dl,
  length dl = S b ->
  Forall (fun e => shouldBeInstant mode e = true) run ->
  match post with [] => True | p :: _ => shouldBeInstant mode p = false end ->
  batch_loop mode (run ++ post) b dl = ((b + length run)%nat, dl ++ (full_line <$> run)).
Proof.
  induction run as [|e run IH]; intros post b dl Hlen Hrun Hpost.
  - simpl. rewrite Nat.add_0_r, app_nil_r.
    destruct post as [|p post]; [done|]. simpl. by rewrite Hpost.
  - apply Forall_cons in Hrun as [He Hrun]. simpl. rewrite He. simpl.
    rewrite arr_set_end by done.
    rewrite (IH post (S b)); try done.
    + f_equal; [lia|]. by rewrite <- app_assoc.
    + rewrite length_app. simpl. lia.
Qed.

(** Every list splits into its longest instant prefix and the rest. *)
Lemma instant_prefix (rest : list Entry) :
  exists run post,
    rest = run ++ post /\
    Forall (fun e => shouldBeInstant mode e = true) run /\
    match post with [] => True | p :: _ => shouldBeInstant mode p = false end.
Proof.
  induction rest as [|e rest (run & post & -> & Hrun & Hpost)].
  - by exists [], [].
  - destruct (shouldBeInstant mode e) eqn:He.
    + exists (e :: run), post. repeat split; try done. by constructor.
    + by exists [], (e :: run ++ post).
Qed.

Lemma typing_fold e k fs c :
  (k <= n)%nat -> forall j,
  fold_left (type_char charsPerFrame speed (text e)) (seq 0 j)
    {| frames := fs; displayLines := shown k ++ [partial_line e 0];
       charCounter := c; lineIdx := k |}
  = {| frames := fs ++ typed_frames parsedLines charsPerFrame speed k e c j;
       displayLines := shown k ++ [partial_line e j];
       charCounter := c + j; lineIdx := k |}.
Proof.
  intros Hk. induction j as [|j IH].
  - simpl. by rewrite app_nil_r, Nat.add_0_r.
  - rewrite seq_S, fold_left_app, IH. simpl.
    assert (set_text k (substring0 (j + 1) (text e)) (shown k ++ [partial_line e j])
            = shown k ++ [partial_line e (j + 1)]) as Hset.
    { apply set_text_end. by rewrite shown_length. }
    unfold type_char. cbn [frames displayLines charCounter lineIdx].
    rewrite Hset.
    unfold typed_frames. rewrite seq_S, flat_map_app. simpl.
    replace (c + S j)%nat with (S (c + j)) by lia.
    destruct (counter_hits charsPerFrame (S (c + j))
              || (j =? String.length (text e) - 1)%nat);
      unfold push_frame, snapshot;
      rewrite ?app_nil_r, ?app_assoc, ?(Nat.add_1_r j); reflexivity.
Qed.
(** *** Order on display lines *)

Lemma lines_le_refl a : lines_le a a.
Proof.
  intros i l Hl. exists l. split; [done|]. split; [apply prefix_refl|lia].
Qed.

Lemma lines_le_trans a b c : lines_le a b -> lines_le b c -> lines_le a c.
Proof.
  intros Hab Hbc i l Hl.
  destruct (Hab i l Hl) as (l' & Hl' & Hp & Hlen).
  destruct (Hbc i l' Hl') as (l'' & Hl'' & Hp' & Hlen').
  exists l''. split; [done|]. split; [by eapply prefix_trans|lia].
Qed.

Lemma lines_le_take a b k : take k b = take k a -> (length a <= k)%nat -> lines_le a b.
Proof.
  intros Htake Hlen i l Hl.
  assert (i < k)%nat as Hi by (apply lookup_lt_Some in Hl; lia).
  exists l. split; [|split; [apply prefix_refl|lia]].
  rewrite <- (lookup_take_lt b k i), Htake, lookup_take_lt; done.
Qed.

Lemma shown_take k k' : (k <= k')%nat -> take k (shown k') = shown k.
Proof.
  intros H. unfold revealed. rewrite <- fmap_take, take_take. by rewrite Nat.min_l.
Qed.

Lemma lines_le_shown k k' : (k <= k')%nat -> (k <= n)%nat -> lines_le (shown k) (shown k').
Proof.
  intros H Hn. apply (lines_le_take _ _ k).
  - rewrite shown_take by done. by rewrite take_ge by (rewrite shown_length; lia).
  - by rewrite shown_length.
Qed.

Lemma shown_is_Some k : Forall is_Some (shown k).
Proof. unfold revealed. apply Forall_fmap, Forall_true. intros e. by eexists. Qed.

Lemma shown_lookup k i l :
  shown k !! i = Some (Some l) ->
  exists e, parsedLines !! i = Some e /\ line_text l = text e /\
            line_showPrompt l = showPrompt e.
Proof.
  unfold revealed. rewrite list_lookup_fmap.
  destruct (take k parsedLines !! i) as [e|] eqn:He; [|done].
  simpl. intros [= <-]. exists e. split; [|done].
  apply lookup_take_Some in He. tauto.
Qed.

(** *** Chains and segments *)

Lemma chain_nil : chain [].
Proof. intros i j fi fj _ Hi. by rewrite lookup_nil in Hi. Qed.

Lemma chain_singleton f : chain [f].
Proof.
  intros i j fi fj _ Hi Hj.
  apply list_lookup_singleton_Some in Hi as [_ <-].
  apply list_lookup_singleton_Some in Hj as [_ <-].
  apply lines_le_refl.
Qed.

Lemma chain_app a b :
  chain a -> chain b ->
  (forall x y, x ∈ a -> y ∈ b -> lines_le (tf_lines x) (tf_lines y)) ->
  chain (a ++ b).
Proof.
  intros Ha Hb Hab i j fi fj Hij Hi Hj.
  apply lookup_app_Some in Hi as [Hi|[Hia Hi]];
    apply lookup_app_Some in Hj as [Hj|[Hja Hj]].
  - by apply (Ha i j).
  - apply Hab; by eapply list_elem_of_lookup_2.
  - apply lookup_lt_Some in Hj. lia.
  - apply (Hb (i - length a)%nat (j - length a)%nat); [lia|done..].
Qed.

Lemma segment_nil k k' : segment parsedLines k k' [].
Proof. split; [constructor|apply chain_nil]. Qed.

Lemma segment_singleton k k' f : frame_ok parsedLines k k' f -> segment parsedLines k k' [f].
Proof. intros H. split; [by constructor|apply chain_singleton]. Qed.

Lemma frame_ok_shown k k' ci d :
  (k <= k')%nat -> (k' <= n)%nat ->
  frame_ok parsedLines k k' {| tf_lines := shown k'; tf_cursorLineIndex := ci; tf_delay := d |}.
Proof.
  intros Hk Hn. repeat split; simpl.
  - by apply shown_take.
  - by rewrite shown_length.
  - apply lines_le_refl.
  - apply shown_is_Some.
Qed.

Lemma segment_app k k' k'' a b :
  (k <= k')%nat -> (k' <= k'')%nat -> (k'' <= n)%nat ->
  segment parsedLines k k' a -> segment parsedLines k' k'' b ->
  segment parsedLines k k'' (a ++ b).
Proof.
  intros Hk Hk' Hn [Ha Hca] [Hb Hcb]. split.
  - apply Forall_app. split.
    + eapply Forall_impl; [exact Ha|].
      intros f (Ht & Hl & Hle & Hs). repeat split; try done; [lia|].
      eapply lines_le_trans; [exact Hle|]. apply lines_le_shown; lia.
    + eapply Forall_impl; [exact Hb|].
      intros f (Ht & Hl & Hle & Hs). repeat split; try done.
      rewrite <- (shown_take k k') by done. rewrite <- Ht, take_take.
      by rewrite Nat.min_l.
  - apply chain_app; try done.
    intros x y Hx Hy.
    rewrite Forall_forall in Ha. rewrite Forall_forall in Hb.
    destruct (Ha x Hx) as (_ & Hlx & Hlex & _).
    destruct (Hb y Hy) as (Hty & _ & _ & _).
    eapply lines_le_trans; [exact Hlex|].
    apply (lines_le_take _ _ k'); [|rewrite shown_length; lia].
    rewrite Hty. by rewrite take_ge by (rewrite shown_length; lia).
Qed.
(** *** One typed line *)

Lemma lines_le_snoc (base : list (option DisplayLine)) l l' :
  String.prefix (line_text l) (line_text l') = true ->
  lines_le (base ++ [Some l]) (base ++ [Some l']).
Proof.
  intros Hp i x Hx.
  apply lookup_app_Some in Hx as [Hx|[Hi Hx]].
  - exists x. split; [by apply lookup_app_l_Some|].
    split; [apply prefix_refl|lia].
  - apply list_lookup_singleton_Some in Hx as [Hi0 [= <-]].
    exists l'. split.
    + rewrite lookup_app_r by lia.
      by replace (i - length base)%nat with 0%nat by lia.
    + split; [done|by apply prefix_length].
Qed.

Lemma partial_frame_ok k e j ci d :
  parsedLines !! k = Some e ->
  frame_ok parsedLines k (S k)
    {| tf_lines := shown k ++ [partial_line e j]; tf_cursorLineIndex := ci; tf_delay := d |}.
Proof.
  intros He. assert (k < n)%nat as Hk by (by eapply lookup_lt_Some).
  repeat split; simpl.
  - apply take_app_length'. rewrite shown_length; lia.
  - rewrite length_app, shown_length by lia. simpl. lia.
  - rewrite (shown_S k e He). apply lines_le_snoc. simpl.
    apply prefix_substring0_full.
  - apply Forall_app. split; [apply shown_is_Some|].
    apply Forall_singleton. by eexists.
Qed.

Lemma typed_frames_segment k e c :
  parsedLines !! k = Some e -> forall j,
  segment parsedLines k (S k) (typed_frames parsedLines charsPerFrame speed k e c j) /\
  Forall (fun f => lines_le (tf_lines f) (shown k ++ [partial_line e j]))
         (typed_frames parsedLines charsPerFrame speed k e c j).
Proof.
  intros He. induction j as [|j [[IHok IHchain] IHle]].
  - split; [apply segment_nil|constructor].
  - assert (lines_le (shown k ++ [partial_line e j]) (shown k ++ [partial_line e (S j)]))
      as Hstep.
    { apply lines_le_snoc. simpl. apply prefix_substring0. lia. }
    unfold typed_frames in *. rewrite seq_S, flat_map_app. simpl.
    rewrite app_nil_r, Nat.add_1_r.
    destruct (counter_hits charsPerFrame (S (c + j))
              || (j =? String.length (text e) - 1)%nat).
    + split; [split|].
      * apply Forall_app. split; [done|].
        apply Forall_singleton. by apply partial_frame_ok.
      * apply chain_app; [done|apply chain_singleton|].
        intros x y Hx Hy. apply list_elem_of_singleton in Hy as ->. simpl.
        rewrite Forall_forall in IHle.
        eapply lines_le_trans; [apply IHle, Hx|exact Hstep].
      * apply Forall_app. split.
        -- eapply Forall_impl; [exact IHle|]. intros f Hf.
           eapply lines_le_trans; [exact Hf|exact Hstep].
        -- apply Forall_singleton. apply lines_le_refl.
    + rewrite app_nil_r. split; [by split|].
      eapply Forall_impl; [exact IHle|]. intros f Hf.
      eapply lines_le_trans; [exact Hf|exact Hstep].
Qed.

(** *** One iteration of the main loop *)

Lemma gen_body_typed st k e :
  lineIdx st = k -> displayLines st = shown k ->
  parsedLines !! k = Some e -> shouldBeInstant mode e = false ->
  gen_body parsedLines mode charsPerFrame speed st =
  {| frames := frames st
               ++ typed_frames parsedLines charsPerFrame speed k e (charCounter st)
                    (String.length (text e))
               ++ (if (S k <? n)%nat
                   then [ {| tf_lines := shown (S k); tf_cursorLineIndex := S k;
                             tf_delay := 150 |} ]
                   else []);
     displayLines := shown (S k);
     charCounter := charCounter st + String.length (text e);
     lineIdx := S k |}.
Proof.
  intros Hk Hdl He Hinst.
  assert (k < n)%nat as Hkn by (by eapply lookup_lt_Some).
  unfold gen_body. rewrite Hk, He, Hinst, Hdl.
  rewrite arr_set_end by (rewrite shown_length; lia).
  assert (Some {| line_text := ""; line_showPrompt := showPrompt e |} = partial_line e 0)
    as -> by (unfold partial_line; by rewrite substring0_0).
  rewrite typing_fold by lia.
  cbn [frames displayLines charCounter lineIdx].
  assert (shown k ++ [partial_line e (String.length (text e))] = shown (S k)) as ->.
  { rewrite (shown_S k e He). unfold partial_line, full_line.
    by rewrite substring0_full. }
  destruct (S k <? n)%nat; unfold push_frame, snapshot;
    cbn [frames displayLines charCounter lineIdx];
    by rewrite ?app_nil_r, ?app_assoc.
Qed.

Lemma gen_body_instant st k e run post :
  lineIdx st = k -> displayLines st = shown k ->
  parsedLines !! k = Some e -> shouldBeInstant mode e = true ->
  drop (S k) parsedLines = run ++ post ->
  Forall (fun e => shouldBeInstant mode e = true) run ->
  match post with [] => True | p :: _ => shouldBeInstant mode p = false end ->
  gen_body parsedLines mode charsPerFrame speed st =
  {| frames := frames st
               ++ [ {| tf_lines := shown (S (k + length run));
                       tf_cursorLineIndex := k + length run;
                       tf_delay := batch_delay (length run + 1) |} ]
               ++ (if (S (k + length run) <? n)%nat
                   then [ {| tf_lines := shown (S (k + length run));
                             tf_cursorLineIndex := S (k + length run);
                             tf_delay := 150 |} ]
                   else []);
     displayLines := shown (S (k + length run));
     charCounter := charCounter st;
     lineIdx := S (k + length run) |}.
Proof.
  intros Hk Hdl He Hinst Hdrop Hrun Hpost.
  assert (k < n)%nat as Hkn by (by eapply lookup_lt_Some).
  unfold gen_body. rewrite Hk, He, Hinst, Hdl.
  rewrite arr_set_end by (rewrite shown_length; lia).
  rewrite set_text_end by (rewrite shown_length; lia).
  cbn [line_showPrompt]. fold (full_line e). rewrite <- (shown_S k e He).
  rewrite Hdrop.
  rewrite (batch_loop_run run post k (shown (S k)))
    by (try done; rewrite shown_length; lia).
  rewrite <- (shown_run (S k) run post Hdrop).
  replace (k + length run - k + 1)%nat with (length run + 1)%nat by lia.
  replace (k + length run + 1)%nat with (S (k + length run)) by lia.
  cbn [frames displayLines charCounter lineIdx plus].
  destruct (S (k + length run) <? n)%nat; unfold push_frame, snapshot;
    cbn [frames displayLines charCounter lineIdx];
    by rewrite ?app_nil_r, <- ?app_assoc.
Qed.

Lemma interline_segment k (b : bool) :
  (k <= n)%nat ->
  segment parsedLines k k
    (if b then [ {| tf_lines := shown k; tf_cursorLineIndex := k; tf_delay := 150 |} ]
     else []).
Proof.
  intros Hk. destruct b; [|apply segment_nil].
  apply segment_singleton. by apply frame_ok_shown.
Qed.

Lemma gen_body_step st k :
  lineIdx st = k -> displayLines st = shown k -> (k < n)%nat ->
  exists k' new c',
    (k < k' <= n)%nat /\
    gen_body parsedLines mode charsPerFrame speed st =
      {| frames := frames st ++ new; displayLines := shown k';
         charCounter := c'; lineIdx := k' |} /\
    segment parsedLines k k' new /\
    (k' = S k \/
     forall i e, (k <= i < k')%nat -> parsedLines !! i = Some e ->
                 shouldBeInstant mode e = true).
Proof.
  intros Hk Hdl Hkn.
  destruct (lookup_lt_is_Some_2 parsedLines k Hkn) as [e He].
  destruct (shouldBeInstant mode e) eqn:Hinst.
  - destruct (instant_prefix (drop (S k) parsedLines)) as (run & post & Hdrop & Hrun & Hpost).
    assert (S (k + length run) <= n)%nat as Hk'.
    { apply (f_equal length) in Hdrop. rewrite length_drop, length_app in Hdrop. lia. }
    eexists (S (k + length run)), _, _. split; [lia|]. split; [|split].
    + by apply (gen_body_instant st k e run post).
    + apply (segment_app k (S (k + length run)) (S (k + length run))); try lia.
      * apply segment_singleton. apply frame_ok_shown; lia.
      * by apply interline_segment.
    + right. intros i e' Hi He'.
      destruct (decide (i = k)) as [->|Hne]; [congruence|].
      assert (run !! (i - S k)%nat = Some e') as Hin.
      { rewrite <- (lookup_app_l run post) by lia.
        rewrite <- Hdrop, lookup_drop. by replace (S k + (i - S k))%nat with i by lia. }
      rewrite Forall_forall in Hrun. apply Hrun.
      by eapply list_elem_of_lookup_2.
  - eexists (S k), _, _. split; [lia|]. split; [|split].
    + by apply (gen_body_typed st k e).
    + apply (segment_app k (S k) (S k)); try lia.
      * by apply typed_frames_segment.
      * by apply interline_segment.
    + by left.
Qed.

(** *** The whole loop *)

Lemma gen_loop_spec fuel : forall st k,
  lineIdx st = k -> displayLines st = shown k -> (k <= n)%nat -> (n - k <= fuel)%nat ->
  exists new c',
    gen_loop parsedLines mode charsPerFrame speed fuel st =
      {| frames := frames st ++ new; displayLines := shown n;
         charCounter := c'; lineIdx := n |} /\
    segment parsedLines k n new.
Proof.
  induction fuel as [|fuel IH]; intros st k Hk Hdl Hkn Hfuel.
  - assert (k = n) as -> by lia. exists [], (charCounter st). split; [|apply segment_nil].
    destruct st; simpl in *. subst. by rewrite app_nil_r.
  - simpl. destruct (Nat.ltb_spec (lineIdx st) n) as [Hlt|Hge].
    + destruct (gen_body_step st k Hk Hdl) as (k' & new1 & c1 & Hk' & Hbody & Hseg1 & _);
        [lia|].
      rewrite Hbody.
      destruct (IH {| frames := frames st ++ new1; displayLines := shown k';
                      charCounter := c1; lineIdx := k' |} k')
        as (new2 & c2 & Hloop & Hseg2); try done; try lia.
      exists (new1 ++ new2), c2. split.
      * rewrite Hloop. cbn [frames]. by rewrite app_assoc.
      * apply (segment_app k k' n); try lia; done.
    + assert (k = n) as -> by lia. exists [], (charCounter st).
      split; [|apply segment_nil].
      destruct st; simpl in *. subst. by rewrite app_nil_r.
Qed.

(** The loop leaves through its guard: the fuel never runs out first. *)
Lemma gen_loop_exits st :
  lineIdx st = 0%nat -> displayLines st = [] ->
  lineIdx (gen_loop parsedLines mode charsPerFrame speed n st) = n.
Proof.
  intros Hk Hdl.
  destruct (gen_loop_spec n st 0) as (new & c' & -> & _); try done; lia.
Qed.

(** The timeline: warm-up frame, the frames of the loop, final frame. *)
Lemma timeline_shape :
  exists body,
    timeline parsedLines mode charsPerFrame speed =
      [ {| tf_lines := []; tf_cursorLineIndex := 0; tf_delay := 500 |} ]
      ++ body
      ++ [ {| tf_lines := shown n; tf_cursorLineIndex := n; tf_delay := 2000 |} ] /\
    segment parsedLines 0 n body.
Proof.
  unfold timeline.
  destruct (gen_loop_spec n
              {| frames := push_frame [] 0 500 []; displayLines := [];
                 charCounter := 0; lineIdx := 0 |} 0)
    as (body & c' & -> & Hseg); try done; try lia.
  exists body. split; [|done].
  unfold push_frame, snapshot. cbn [frames displayLines]. reflexivity.
Qed.

Lemma timeline_segment :
  segment parsedLines 0 n (timeline parsedLines mode charsPerFrame speed).
Proof.
  destruct timeline_shape as (body & -> & Hbody).
  apply (segment_app 0 0 n); try lia.
  - apply segment_singleton. repeat split; simpl; try done.
  - apply (segment_app 0 n n); try lia; [done|].
    apply segment_singleton. apply frame_ok_shown; lia.
Qed.

(** *** Reaching the start of an instant run *)

Lemma gen_loop_reach p :
  (p <= n)%nat ->
  (forall e, parsedLines !! (p - 1)%nat = Some e -> (1 <= p)%nat ->
             shouldBeInstant mode e = false) ->
  forall fuel st k,
    lineIdx st = k -> displayLines st = shown k -> (k <= p)%nat -> (n - k <= fuel)%nat ->
    exists fuel' st_p mid,
      gen_loop parsedLines mode charsPerFrame speed fuel st =
        gen_loop parsedLines mode charsPerFrame speed fuel' st_p /\
      lineIdx st_p = p /\ displayLines st_p = shown p /\ (n - p <= fuel')%nat /\
      frames st_p = frames st ++ mid /\
      segment parsedLines k p mid.
Proof.
  intros Hpn Hboundary.
  induction fuel as [|fuel IH]; intros st k Hk Hdl Hkp Hfuel.
  - assert (k = p) as <- by lia.
    exists 0%nat, st, []. rewrite app_nil_r. repeat split; try done; apply chain_nil.
  - destruct (decide (k = p)) as [<-|Hne].
    + exists (S fuel), st, []. rewrite app_nil_r.
      repeat split; try done; apply chain_nil.
    + simpl. destruct (Nat.ltb_spec (lineIdx st) n) as [Hlt|Hge]; [|lia].
      destruct (gen_body_step st k Hk Hdl) as (k' & new1 & c1 & Hk' & Hbody & Hseg1 & Hor);
        [lia|].
      assert (k' <= p)%nat as Hk'p.
      { destruct Hor as [->|Hall]; [lia|].
        destruct (Nat.le_gt_cases k' p) as [|Hgt]; [done|exfalso].
        destruct (lookup_lt_is_Some_2 parsedLines (p - 1)%nat) as [e He]; [lia|].
        pose proof (Hall (p - 1)%nat e ltac:(lia) He) as Htrue.
        pose proof (Hboundary e He ltac:(lia)) as Hfalse. congruence. }
      rewrite Hbody.
      destruct (IH {| frames := frames st ++ new1; displayLines := shown k';
                      charCounter := c1; lineIdx := k' |} k')
        as (fuel' & st_p & mid & Hloop & Hp1 & Hp2 & Hp3 & Hp4 & Hp5); try done; try lia.
      exists fuel', st_p, (new1 ++ mid). repeat split; try done.
      * rewrite Hp4. cbn [frames]. by rewrite app_assoc.
      * apply (segment_app k k' p); try lia; done.
      * apply (segment_app k k' p); try lia; done.
Qed.

Lemma timeline_instant_run pre e run post :
  parsedLines = pre ++ (e :: run) ++ post ->
  Forall (fun e => shouldBeInstant mode e = true) (e :: run) ->
  (forall x, last pre = Some x -> shouldBeInstant mode x = false) ->
  (forall x, head post = Some x -> shouldBeInstant mode x = false) ->
  exists before after,
    timeline parsedLines mode charsPerFrame speed =
      before
      ++ [ {| tf_lines := shown (length pre + length (e :: run));
              tf_cursorLineIndex := length pre + length (e :: run) - 1;
              tf_delay := batch_delay (length (e :: run)) |} ]
      ++ after /\
    Forall (fun f => (length (tf_lines f) <= length pre)%nat) before /\
    Forall (fun f => take (length pre + length (e :: run)) (tf_lines f)
                     = shown (length pre + length (e :: run))) after.
Proof.
  intros Hsplit Hrun Hpre Hpost.
  apply Forall_cons in Hrun as [He Hrun].
  set (p := length pre).
  assert (n = p + S (length run) + length post)%nat as Hn.
  { rewrite Hsplit, !length_app. simpl. lia. }
  assert (parsedLines !! p = Some e) as Hlook.
  { rewrite Hsplit. by rewrite lookup_app_r, Nat.sub_diag by done. }
  assert (drop (S p) parsedLines = run ++ post) as Hdrop.
  { rewrite Hsplit. rewrite drop_app_ge by (unfold p; lia).
    replace (S p - length pre)%nat with 1%nat by (unfold p; lia). reflexivity. }
  assert (match post with [] => True | x :: _ => shouldBeInstant mode x = false end)
    as Hpost'.
  { destruct post as [|x post]; [done|]. by apply Hpost. }
  destruct (gen_loop_reach p) with
    (fuel := n) (k := 0%nat)
    (st := {| frames := push_frame [] 0 500 []; displayLines := [];
              charCounter := 0; lineIdx := 0 |})
    as (fuel' & st_p & mid & Hloop & Hp1 & Hp2 & Hp3 & Hp4 & Hmid & _);
    try done; try lia.
  { intros x Hx Hp. apply Hpre. rewrite last_lookup.
    rewrite Hsplit, lookup_app_l in Hx by (unfold p in *; lia).
    rewrite <- Hx. f_equal. unfold p. lia. }
  unfold timeline. rewrite Hloop.
  destruct fuel' as [|fuel']; [lia|]. simpl.
  destruct (Nat.ltb_spec (lineIdx st_p) n) as [_|Hge]; [|lia].
  rewrite (gen_body_instant st_p p e run post) by done.
  set (k' := S (p + length run)).
  set (batch := {| tf_lines := shown k'; tf_cursorLineIndex := (p + length run)%nat;
                   tf_delay := batch_delay (length run + 1) |}).
  set (inter := if (k' <? n)%nat
                then [ {| tf_lines := shown k'; tf_cursorLineIndex := k'; tf_delay := 150 |} ]
                else []).
  destruct (gen_loop_spec fuel'
              {| frames := frames st_p ++ [batch] ++ inter; displayLines := shown k';
                 charCounter := charCounter st_p; lineIdx := k' |} k')
    as (rest & c' & -> & Hrest & _); try done; try (unfold k'; lia).
  cbn [frames displayLines]. rewrite Hp4. cbn [frames].
  exists (push_frame [] 0 500 [] ++ mid),
         (inter ++ rest ++ [ {| tf_lines := shown n; tf_cursorLineIndex := n;
                                tf_delay := 2000 |} ]).
  assert (p + S (length run) = k')%nat as -> by (unfold k'; lia).
  split; [|split].
  - unfold push_frame, snapshot. rewrite <- !app_assoc. simpl.
    do 3 f_equal. unfold batch. f_equal; [unfold k'; lia|f_equal; lia].
  - apply Forall_app. split.
    + apply Forall_singleton. simpl. lia.
    + eapply Forall_impl; [exact Hmid|]. by intros f (_ & Hlen & _).
  - apply Forall_app. split; [|apply Forall_app; split].
    + unfold inter. destruct (k' <? n)%nat; [|constructor].
      apply Forall_singleton. simpl. apply shown_take. lia.
    + eapply Forall_impl; [exact Hrest|]. by intros f (Htake & _).
    + apply Forall_singleton. simpl. apply shown_take. unfold k'. lia.
Qed.

End TimelineFacts.

(** ** The generator never throws *)

Section Totality.
Variable measureText : Q -> string -> string -> Q.

Lemma createFrame_total adj theme size tf :
  Forall is_Some (tf_lines tf) ->
  exists f, createFrame measureText adj theme size tf = Some f /\ delay f = tf_delay tf.
Proof.
  intros Hdense.
  assert (exists ls, tf_lines tf = Some <$> ls) as [ls Hls].
  { induction (tf_lines tf) as [|x xs IH]; [by exists []|].
    apply Forall_cons in Hdense as [[l ->] Hxs].
    destruct (IH Hxs) as [ls ->]. by exists (l :: ls). }
  destruct tf as [lines0 ci d]. simpl in *. subst lines0.
  apply createFrame_dense.
Qed.

(** [generateAnimationFrames] returns one painted frame per timeline frame,
    with that frame's hold duration. *)
Lemma generateAnimationFrames_total parsedLines config theme options :
  exists fs,
    generateAnimationFrames measureText parsedLines config theme options = Some fs /\
    Forall2 (fun tf f => delay f = tf_delay tf /\
                         createFrame measureText
                           (adjustedConfigOf measureText parsedLines config theme options)
                           theme
                           (finalCanvasSize measureText parsedLines config theme options)
                           tf = Some f)
            (generateTimeline parsedLines config options) fs.
Proof.
  unfold generateAnimationFrames.
  set (adj := adjustedConfigOf _ _ _ _ _).
  set (size := finalCanvasSize _ _ _ _ _).
  pose proof (timeline_segment parsedLines (effectiveMode config)
                (charsPerFrameOf (typedChars (effectiveMode config) parsedLines)
                   (targetFrameCount options))
                (typingSpeed options)) as [Hok _].
  fold (generateTimeline parsedLines config options) in Hok.
  induction Hok as [|tf tfs (_ & _ & _ & Hdense) _ (fs & Hfs & Hall)].
  - exists []. split; [done|constructor].
  - destruct (createFrame_total adj theme size tf Hdense) as (f & Hf & Hd).
    exists (f :: fs). split.
    + simpl. rewrite Hf. simpl. by rewrite Hfs.
    + by constructor.
Qed.
End Totality.

(** ** Monotonic reveal *)

(** C7. Across the frames the generator emits, in order: every line shown in a
    frame is a slot of a real entry and its text is a prefix of that entry's
    full text, hence no longer than it; and from any frame to any later one,
    every line stays present with a text that extends the earlier one, so its
    length never decreases. *)
Theorem reveal_is_monotone parsedLines config options :
  (forall f i l,
     f ∈ generateTimeline parsedLines config options ->
     tf_lines f !! i = Some (Some l) ->
     exists e, parsedLines !! i = Some e /\
       String.prefix (line_text l) (text e) = true /\
       (String.length (line_text l) <= String.length (text e))%nat) /\
  (forall a b fa fb i l,
     (a <= b)%nat ->
     generateTimeline parsedLines config options !! a = Some fa ->
     generateTimeline parsedLines config options !! b = Some fb ->
     tf_lines fa !! i = Some (Some l) ->
     exists l', tf_lines fb !! i = Some (Some l') /\
       String.prefix (line_text l) (line_text l') = true /\
       (String.length (line_text l) <= String.length (line_text l'))%nat).
Proof.
  pose proof (timeline_segment parsedLines (effectiveMode config)
                (charsPerFrameOf (typedChars (effectiveMode config) parsedLines)
                   (targetFrameCount options))
                (typingSpeed options)) as [Hok Hchain].
  fold (generateTimeline parsedLines config options) in Hok, Hchain.
  split.
  - intros f i l Hf Hl. rewrite Forall_forall in Hok.
    destruct (Hok f Hf) as (_ & _ & Hle & _).
    destruct (Hle i l Hl) as (l' & Hl' & Hp & Hlen).
    destruct (shown_lookup parsedLines _ i l' Hl') as (e & He & Ht & _).
    exists e. rewrite <- Ht. done.
  - intros a b fa fb i l Hab Ha Hb Hl. by apply (Hchain a b fa fb Hab Ha Hb i l).
Qed.

Lemma reveal_is_monotone_witness :
  let entries := parseLines ["> ls"; "!!"; "a.txt"; "b.txt"; "!!"] "" in
  exists l',
    Some (Some {| line_text := "ls"; line_showPrompt := true |}) = Some (Some l') /\
    String.prefix "l" (line_text l') = true /\
    (String.length "l" <= String.length (line_text l'))%nat.
Proof.
  apply (proj2 (reveal_is_monotone
                  (parseLines ["> ls"; "!!"; "a.txt"; "b.txt"; "!!"] "")
                  sample_config sample_options)
           1%nat 4%nat
           {| tf_lines := [Some {| line_text := "l"; line_showPrompt := true |}];
              tf_cursorLineIndex := 0; tf_delay := 50 |}
           {| tf_lines := [Some {| line_text := "ls"; line_showPrompt := true |};
                           Some {| line_text := "a.txt"; line_showPrompt := false |};
                           Some {| line_text := "b.txt"; line_showPrompt := false |}];
              tf_cursorLineIndex := 2; tf_delay := 250 |}
           0%nat {| line_text := "l"; line_showPrompt := true |});
    [lia | vm_compute; reflexivity | vm_compute; reflexivity | reflexivity].
Defined.

(** ** Instant batching *)

Lemma batch_delay_formula N :
  (batch_delay N ==
   Qmin 400 (150 + inject_Z (Z.of_nat N) * Qmin 50 (200 / inject_Z (Z.of_nat N))))%Q.
Proof. unfold batch_delay. apply Q.min_comm. Qed.

(** C5. A maximal run of [N] consecutive instant entries (the entry before
    it, if any, and the entry after it, if any, are not instant) gets exactly
    one reveal frame: every frame before it shows none of the run's lines,
    that frame shows the script fully revealed up to the end of the run with
    the cursor on the run's last line, and every frame after it still shows
    all that; the frame is held [min(400, 150 + N * min(50, 200 / N))] ms. *)
Theorem instant_run_single_frame parsedLines config options pre run post :
  parsedLines = pre ++ run ++ post ->
  run <> [] ->
  Forall (fun e => shouldBeInstant (effectiveMode config) e = true) run ->
  (forall x, last pre = Some x -> shouldBeInstant (effectiveMode config) x = false) ->
  (forall x, head post = Some x -> shouldBeInstant (effectiveMode config) x = false) ->
  exists before batch after,
    generateTimeline parsedLines config options = before ++ [batch] ++ after /\
    Forall (fun f => (length (tf_lines f) <= length pre)%nat) before /\
    tf_lines batch = revealed parsedLines (length pre + length run) /\
    tf_cursorLineIndex batch = (length pre + length run - 1)%nat /\
    (tf_delay batch ==
     Qmin 400 (150 + inject_Z (Z.of_nat (length run))
                     * Qmin 50 (200 / inject_Z (Z.of_nat (length run)))))%Q /\
    Forall (fun f => take (length pre + length run) (tf_lines f)
                     = revealed parsedLines (length pre + length run)) after.
Proof.
  intros Hsplit Hne Hrun Hpre Hpost.
  destruct run as [|e run]; [done|].
  destruct (timeline_instant_run parsedLines (effectiveMode config)
              (charsPerFrameOf (typedChars (effectiveMode config) parsedLines)
                 (targetFrameCount options))
              (typingSpeed options) pre e run post Hsplit Hrun Hpre Hpost)
    as (before & after & Htl & Hbefore & Hafter).
  eexists before, _, after. split; [exact Htl|].
  repeat split; try done. apply batch_delay_formula.
Qed.

Lemma instant_run_single_frame_witness :
  let cmd := {| type := "command"; text := "ls"; showPrompt := true; instant := false |} in
  let a := {| type := "output"; text := "a.txt"; showPrompt := false; instant := true |} in
  let b := {| type := "output"; text := "b.txt"; showPrompt := false; instant := true |} in
  exists before batch after,
    generateTimeline ([cmd] ++ [a; b] ++ []) sample_config sample_options
      = before ++ [batch] ++ after /\
    Forall (fun f => (length (tf_lines f) <= 1)%nat) before /\
    tf_lines batch = revealed ([cmd] ++ [a; b] ++ []) (1 + 2) /\
    tf_cursorLineIndex batch = (1 + 2 - 1)%nat /\
    (tf_delay batch ==
     Qmin 400 (150 + inject_Z (Z.of_nat 2) * Qmin 50 (200 / inject_Z (Z.of_nat 2))))%Q /\
    Forall (fun f => take (1 + 2) (tf_lines f) = revealed ([cmd] ++ [a; b] ++ []) (1 + 2)) after.
Proof.
  intros cmd a b.
  apply (instant_run_single_frame ([cmd] ++ [a; b] ++ []) sample_config sample_options
           [cmd] [a; b] []).
  - reflexivity.
  - discriminate.
  - repeat constructor.
  - intros x Hx. injection Hx as <-. reflexivity.
  - intros x Hx. discriminate Hx.
Defined.

(** ** The live driver *)

Lemma arr_set_last {A} (base : list (option A)) (x : option A) (v : A) (i : nat) :
  i = length base -> arr_set i v (base ++ [x]) = base ++ [Some v].
Proof.
  intros ->. unfold arr_set. rewrite length_app. simpl.
  destruct (Nat.ltb_spec (length base) (length base + 1)) as [_|H]; [|lia].
  rewrite <- (Nat.add_0_r (length base)) at 1. by rewrite insert_app_r.
Qed.

Ltac dsimpl :=
  cbn [d_lineIdx d_charIdx d_lastTime waitingForNextLine waitStartTime
       displayedLines isComplete currentLineIndex scheduled] in *.

Section DriverFacts.
Variable lines_ : list string.
Variable speed : Q.
Variable lineDelay : Q.
Variable mode : string.
Variable lineInfo : option (list Entry).

Local Abbreviation n := (length lines_).
Local Abbreviation animate' := (animate lines_ speed lineDelay mode lineInfo).
Local Abbreviation tick' := (tick lines_ speed lineDelay mode lineInfo).
Local Abbreviation run' := (run lines_ speed lineDelay mode lineInfo).

Lemma done_lines_length k : (k <= n)%nat -> length (done_lines lines_ k) = k.
Proof. intros H. unfold done_lines. rewrite length_fmap, length_take. lia. Qed.

Lemma done_lines_S k line :
  lines_ !! k = Some line ->
  done_lines lines_ (S k) =
  done_lines lines_ k ++ [Some {| shown_text := line; complete := true |}].
Proof.
  intros H. unfold done_lines. by rewrite (take_S_r _ _ _ H), fmap_app.
Qed.

Lemma arr_set_typing_lines k j line v :
  (k <= n)%nat ->
  arr_set k v (typing_lines lines_ k j line) = done_lines lines_ k ++ [Some v].
Proof.
  intros Hk. unfold typing_lines. destruct j as [|j].
  - rewrite app_nil_r. apply arr_set_end. by rewrite done_lines_length.
  - apply arr_set_last. by rewrite done_lines_length.
Qed.

Lemma driver_start_inv : lines_ <> [] -> driver_inv lines_ driver_start.
Proof.
  intros Hne. destruct lines_ as [|line rest] eqn:E; [done|].
  rewrite <- E. unfold driver_start.
  change (@nil (option ShownLine)) with (typing_lines lines_ 0 0 line).
  apply inv_typing; [by rewrite E|lia].
Qed.

(** Whatever the time stamp, a callback keeps the driver in one of its
    three kinds of state. *)
Lemma tick_inv d timestamp : driver_inv lines_ d -> driver_inv lines_ (tick' d timestamp).
Proof.
  intros [k j line lt ws Hline Hj | k j lt ws Hk | k j lt w ws Hk]; unfold tick;
    dsimpl; [| |by constructor].
  - assert (k < n)%nat as Hkn by (by eapply lookup_lt_Some).
    unfold animate. dsimpl. rewrite Hline.
    destruct (negb (shouldTypeLine mode lineInfo k)).
    + unfold next_or_finish, set_shown. dsimpl.
      rewrite arr_set_typing_lines, <- (done_lines_S k line) by (done || lia).
      destruct (Nat.ltb_spec k (n - 1)); [apply inv_waiting|apply inv_finished]; lia.
    + destruct (negb (Qle_bool speed _)); dsimpl; [by apply inv_typing|].
      destruct (Nat.ltb_spec j (String.length line)).
      * unfold set_shown. dsimpl. rewrite arr_set_typing_lines by lia.
        by apply (inv_typing lines_ k (S j) line).
      * unfold next_or_finish, set_shown. dsimpl.
        rewrite arr_set_typing_lines, <- (done_lines_S k line) by (done || lia).
        destruct (Nat.ltb_spec k (n - 1)); [apply inv_waiting|apply inv_finished]; lia.
  - unfold animate. dsimpl.
    destruct (lookup_lt_is_Some_2 lines_ (S k) Hk) as [line Hline].
    destruct (Qle_bool lineDelay _); dsimpl; [|by apply inv_waiting].
    pose proof (inv_typing lines_ (S k) 0 line timestamp ws Hline ltac:(lia)) as H.
    unfold typing_lines in H. by rewrite app_nil_r in H.
Qed.

Lemma run_inv timestamps : forall d,
  driver_inv lines_ d -> driver_inv lines_ (run' timestamps d).
Proof.
  induction timestamps as [|t ts IH]; intros d Hd; [done|].
  simpl. apply IH. by apply tick_inv.
Qed.

(** A driver with nothing scheduled has finished: every line is shown in
    full and complete, and [currentLineIndex] is the index of the last
    line. *)
Lemma unscheduled_finished d :
  driver_inv lines_ d -> scheduled d = false ->
  isComplete d = true /\
  displayedLines d = done_lines lines_ n /\
  currentLineIndex d = (n - 1)%nat.
Proof.
  intros [k j line lt ws Hline Hj | k j lt ws Hk | k j lt w ws Hk] Hs; try done.
  dsimpl. rewrite Hk. repeat split. lia.
Qed.
(** *** Natural completion is reached *)

Local Abbreviation D := (slow_refresh speed lineDelay).

Lemma slow_refresh_bounds : (1 <= D)%Q /\ (speed <= D)%Q /\ (lineDelay <= D)%Q.
Proof.
  unfold slow_refresh. repeat split.
  - apply Q.le_max_l.
  - eapply Qle_trans; [apply Q.le_max_l|apply Q.le_max_r].
  - eapply Qle_trans; [apply Q.le_max_r|apply Q.le_max_r].
Qed.

Lemma Qeq_bool_pos t : (0 < t)%Q -> Qeq_bool t 0 = false.
Proof.
  intros Ht. destruct (Qeq_bool t 0) eqn:E; [|done].
  apply Qeq_bool_iff in E. lra.
Qed.

Lemma Qle_bool_gap a t : (a <= D)%Q -> Qle_bool a (t + D - t) = true.
Proof. intros Ha. apply Qle_bool_iff. lra. Qed.

Lemma driver_work_typing k j lt ws dl c ci s line :
  lines_ !! k = Some line ->
  driver_work lines_
    {| d_lineIdx := k; d_charIdx := j; d_lastTime := lt;
       waitingForNextLine := false; waitStartTime := ws;
       displayedLines := dl; isComplete := c; currentLineIndex := ci;
       scheduled := s |}
  = (sum_list_with (fun s => String.length s + 2) (drop (S k) lines_)
     + (2 + (String.length line - j)))%nat.
Proof. intros H. unfold driver_work. dsimpl. by rewrite H. Qed.

Lemma finish_or_wait_progress k j lt ws line timestamp base :
  lines_ !! k = Some line -> (j <= String.length line)%nat ->
  let d :=
    next_or_finish lines_ timestamp
      {| d_lineIdx := k; d_charIdx := j; d_lastTime := lt;
         waitingForNextLine := false; waitStartTime := ws;
         displayedLines := base; isComplete := false; currentLineIndex := k;
         scheduled := false |} in
  (scheduled d = true -> timed d timestamp) /\
  (scheduled d = false \/
   (driver_work lines_ d <
    sum_list_with (fun s => String.length s + 2) (drop (S k) lines_)
    + (2 + (String.length line - j)))%nat).
Proof.
  intros Hline Hj. unfold next_or_finish. dsimpl.
  destruct (k <? n - 1)%nat; dsimpl.
  - split; [done|]. right. unfold driver_work. dsimpl. lia.
  - split; [done|]. by left.
Qed.

Lemma timed_progress d t :
  driver_inv lines_ d -> scheduled d = true -> timed d t -> (0 < t)%Q ->
  (scheduled (animate' (t + D) d) = true -> timed (animate' (t + D) d) (t + D)) /\
  (scheduled (animate' (t + D) d) = false \/
   (driver_work lines_ (animate' (t + D) d) < driver_work lines_ d)%nat).
Proof.
  destruct slow_refresh_bounds as (HD1 & HDs & HDl).
  intros [k j line lt ws Hline Hj | k j lt ws Hk | k j lt w ws Hk] Hs Ht Hpos;
    try done; unfold timed in Ht; dsimpl; subst.
  - unfold animate. dsimpl. rewrite (Qeq_bool_pos t Hpos), Hline.
    rewrite (driver_work_typing k j t ws (typing_lines lines_ k j line) false k true line Hline).
    destruct (negb (shouldTypeLine mode lineInfo k)).
    + unfold set_shown. dsimpl. by apply finish_or_wait_progress.
    + rewrite (Qle_bool_gap speed t HDs). cbn [negb].
      destruct (Nat.ltb_spec j (String.length line)).
      * unfold set_shown. dsimpl. split; [done|]. right.
        rewrite (driver_work_typing k (S j) _ _ _ _ _ _ line Hline). lia.
      * unfold set_shown. dsimpl. by apply finish_or_wait_progress.
  - unfold animate. dsimpl. rewrite (Qle_bool_gap lineDelay t HDl).
    split; [done|]. right.
    destruct (lookup_lt_is_Some_2 lines_ (S k) Hk) as [line Hline].
    unfold driver_work. dsimpl. rewrite Hline. cbn [default from_option].
    rewrite (drop_S lines_ line (S k) Hline). simpl. lia.
Qed.

Lemma first_callback_timed t :
  scheduled (animate' t driver_start) = true -> timed (animate' t driver_start) t.
Proof.
  unfold animate, driver_start. dsimpl. change (Qeq_bool 0 0) with true. cbn iota.
  destruct (lines_ !! 0%nat) as [line|]; dsimpl; [|done].
  destruct (negb (shouldTypeLine mode lineInfo 0)).
  - unfold next_or_finish, set_shown. dsimpl. by destruct (0 <? n - 1)%nat.
  - destruct (negb (Qle_bool speed (t - t))); dsimpl; [done|].
    destruct (0 <? String.length line)%nat; unfold set_shown; dsimpl; [done|].
    unfold next_or_finish. dsimpl. by destruct (0 <? n - 1)%nat.
Qed.

Lemma run_cons t ts d :
  scheduled d = true -> run' (t :: ts) d = run' ts (animate' t d).
Proof.
  intros H. change (run' (t :: ts) d) with (run' ts (tick' d t)).
  unfold tick. by rewrite H.
Qed.

Lemma timed_run_finishes m : forall d t,
  (driver_work lines_ d <= m)%nat ->
  driver_inv lines_ d -> timed d t -> (0 < t)%Q ->
  exists timestamps, scheduled (run' timestamps d) = false.
Proof.
  destruct slow_refresh_bounds as (HD1 & _ & _).
  induction m as [|m IH]; intros d t Hwork Hinv Ht Hpos;
    (destruct (scheduled d) eqn:Hs; [|by exists []]);
    destruct (timed_progress d t Hinv Hs Ht Hpos) as [Htimed [Hdone|Hless]];
    try (exists [(t + D)%Q]; by rewrite run_cons);
    try lia.
  destruct (scheduled (animate' (t + D) d)) eqn:Hs';
    [|exists [(t + D)%Q]; by rewrite run_cons].
  destruct (IH (animate' (t + D) d) (t + D)%Q) as [ts Hts];
    [lia | | by apply Htimed | lra |].
  - pose proof (tick_inv d (t + D) Hinv) as H. unfold tick in H. by rewrite Hs in H.
  - exists ((t + D)%Q :: ts). by rewrite run_cons.
Qed.

(** Fed one callback per slow refresh, the driver finishes. *)
Lemma driver_finishes :
  lines_ <> [] -> exists timestamps, scheduled (run' timestamps driver_start) = false.
Proof.
  intros Hne. destruct slow_refresh_bounds as (HD1 & _ & _).
  pose proof (tick_inv driver_start D (driver_start_inv Hne)) as Hinv.
  unfold tick in Hinv. cbn [scheduled driver_start] in Hinv.
  destruct (scheduled (animate' D driver_start)) eqn:Hs;
    [|exists [D]; by rewrite run_cons].
  destruct (timed_run_finishes _ (animate' D driver_start) D (Nat.le_refl _) Hinv)
    as [ts Hts].
  - by apply first_callback_timed.
  - lra.
  - exists (D :: ts). by rewrite run_cons.
Qed.
End DriverFacts.

(** ** Where the driver and the generator end *)

Lemma timeline_last parsedLines mode charsPerFrame speed :
  last (timeline parsedLines mode charsPerFrame speed) =
  Some {| tf_lines := revealed parsedLines (length parsedLines);
          tf_cursorLineIndex := length parsedLines; tf_delay := 2000 |}.
Proof.
  destruct (timeline_shape parsedLines mode charsPerFrame speed) as (body & -> & _).
  by rewrite app_assoc, last_snoc.
Qed.

(** [skipToEnd], the other way the hook finishes, puts [currentLineIndex]
    one past the last line. *)
Lemma skipToEnd_past_end lines_ d :
  isComplete (skipToEnd lines_ d) = true /\
  displayedLines (skipToEnd lines_ d) = done_lines lines_ (length lines_) /\
  currentLineIndex (skipToEnd lines_ d) = length lines_.
Proof.
  unfold skipToEnd, done_lines. dsimpl. by rewrite take_ge.
Qed.

(** Scenario A in the live preview, one callback every 50 ms from 16 ms on:
    the run finishes on the nineteenth callback with the index still 1. *)
Example driver_whoami_root :
  let entries := parseLines ["> whoami"; "root"] "" in
  let d := terminal_run entries sample_config sample_options
             ((fun i => inject_Z (16 + 50 * Z.of_nat i)) <$> seq 0 19) in
  scheduled d = false /\ isComplete d = true /\
  displayedLines d = [Some {| shown_text := "whoami"; complete := true |};
                      Some {| shown_text := "root"; complete := true |}] /\
  currentLineIndex d = 1%nat /\
  tf_cursorLineIndex
    <$> last (generateTimeline entries sample_config sample_options) = Some 2%nat.
Proof. vm_compute. repeat split. Qed.

(** C1. For every non-empty entry list the driver reaches natural completion
    and the generator emits a last frame; the two agree on every line's text,
    and every line is complete, but the cursor positions differ: the driver
    leaves [currentLineIndex] on the last line, the generator's last frame
    has it one past the last line. *)
Theorem driver_ends_on_last_line parsedLines config options :
  parsedLines <> [] ->
  (exists timestamps,
     scheduled (terminal_run parsedLines config options timestamps) = false) /\
  forall timestamps,
    scheduled (terminal_run parsedLines config options timestamps) = false ->
    exists final,
      last (generateTimeline parsedLines config options) = Some final /\
      isComplete (terminal_run parsedLines config options timestamps) = true /\
      displayedLines (terminal_run parsedLines config options timestamps) =
        (fun e => Some {| shown_text := text e; complete := true |}) <$> parsedLines /\
      tf_lines final =
        (fun e => Some {| line_text := text e; line_showPrompt := showPrompt e |})
          <$> parsedLines /\
      currentLineIndex (terminal_run parsedLines config options timestamps)
        = (length parsedLines - 1)%nat /\
      tf_cursorLineIndex final = length parsedLines /\
      currentLineIndex (terminal_run parsedLines config options timestamps)
        <> tf_cursorLineIndex final.
Proof.
  intros Hne.
  assert (lineTexts parsedLines <> []) as Hne'.
  { unfold lineTexts. by destruct parsedLines. }
  assert (length (lineTexts parsedLines) = length parsedLines) as Hlen.
  { unfold lineTexts. apply length_map. }
  assert (0 < length parsedLines)%nat as Hpos.
  { destruct parsedLines; [done|simpl; lia]. }
  split.
  - by apply driver_finishes.
  - intros timestamps Hs. eexists. split; [apply timeline_last|].
    unfold terminal_run in *.
    destruct (unscheduled_finished (lineTexts parsedLines) _
                (run_inv (lineTexts parsedLines) (typingSpeed options) 300
                   (effectiveMode config) (Some parsedLines) timestamps driver_start
                   (driver_start_inv (lineTexts parsedLines) Hne')) Hs)
      as (Hc & Hdl & Hci).
    rewrite Hc, Hdl, Hci, Hlen. cbn [tf_lines tf_cursorLineIndex].
    repeat split; try lia.
    + unfold done_lines, lineTexts. rewrite <- Hlen. unfold lineTexts.
      rewrite take_ge by done.
      change (map text parsedLines) with (text <$> parsedLines).
      by rewrite <- list_fmap_compose.
    + unfold revealed. by rewrite take_ge.
Qed.

Lemma driver_ends_on_last_line_witness :
  let entries := [ {| type := "command"; text := "whoami"; showPrompt := true; instant := false |};
                   {| type := "output"; text := "root"; showPrompt := false; instant := false |} ] in
  (exists timestamps,
     scheduled (terminal_run entries sample_config sample_options timestamps) = false) /\
  forall timestamps,
    scheduled (terminal_run entries sample_config sample_options timestamps) = false ->
    exists final,
      last (generateTimeline entries sample_config sample_options) = Some final /\
      isComplete (terminal_run entries sample_config sample_options timestamps) = true /\
      displayedLines (terminal_run entries sample_config sample_options timestamps) =
        (fun e => Some {| shown_text := text e; complete := true |}) <$> entries /\
      tf_lines final =
        (fun e => Some {| line_text := text e; line_showPrompt := showPrompt e |})
          <$> entries /\
      currentLineIndex (terminal_run entries sample_config sample_options timestamps)
        = (length entries - 1)%nat /\
      tf_cursorLineIndex final = length entries /\
      currentLineIndex (terminal_run entries sample_config sample_options timestamps)
        <> tf_cursorLineIndex final.
Proof.
  intros entries.
  apply (driver_ends_on_last_line entries sample_config sample_options).
  discriminate.
Defined.

(** * Further properties of the code *)

(** ** Input splitting *)

Lemma keep_lines_all_blank arr :
  existsb nonblank arr = false -> keep_lines arr = [].
Proof.
  induction arr as [|line rest IH]; [done|]. simpl.
  destruct (nonblank line); [done|]. simpl. intros H. rewrite H. by apply IH.
Qed.

Lemma keep_lines_prefix arr :
  exists dropped,
    arr = keep_lines arr ++ dropped /\
    Forall (fun l => nonblank l = false) dropped /\
    match last (keep_lines arr) with Some l => nonblank l = true | None => True end.
Proof.
  induction arr as [|line rest (dropped & Hsplit & Hblank & Hlast)].
  - by exists [].
  - simpl. destruct (nonblank line) eqn:Hline.
    + exists dropped. split; [simpl; by rewrite <- Hsplit|]. split; [done|].
      destruct (keep_lines rest) as [|x xs]; [done|]. by rewrite last_cons_cons.
    + simpl. destruct (existsb nonblank rest) eqn:Hafter.
      * exists dropped. split; [simpl; by rewrite <- Hsplit|]. split; [done|].
        destruct (keep_lines rest) as [|x xs]; [|by rewrite last_cons_cons].
        exfalso. simpl in Hsplit. subst rest.
        apply existsb_exists in Hafter as (x & Hx & Hnb).
        rewrite Forall_forall in Hblank. apply list_elem_of_In in Hx.
        rewrite (Hblank x Hx) in Hnb. discriminate.
      * rewrite (keep_lines_all_blank rest Hafter) in *.
        exists (line :: rest). split; [done|]. split; [|done].
        constructor; [done|]. simpl in Hsplit. by subst rest.
Qed.

Lemma keep_lines_fixed ls :
  match last ls with Some l => nonblank l = true | None => True end ->
  keep_lines ls = ls.
Proof.
  induction ls as [|line rest IH]; [done|]. intros Hlast.
  destruct (decide (rest = [])) as [->|Hne].
  - simpl in *. by rewrite Hlast.
  - assert (last (line :: rest) = last rest) as Hl.
    { destruct rest; [done|by rewrite last_cons_cons]. }
    rewrite Hl in Hlast. cbn [keep_lines]. rewrite (IH Hlast).
    destruct (nonblank line); [done|].
    assert (existsb nonblank rest = true) as ->; [|done].
    apply existsb_exists.
    destruct (last rest) as [l|] eqn:Hlr; [|by destruct rest using rev_ind; [|rewrite last_snoc in Hlr]].
    exists l. split; [|done]. apply list_elem_of_In. by eapply last_Some_elem_of.
Qed.

(** X1. The preview and the exports see the text's lines with exactly the
    trailing blank lines removed: what is kept is a prefix of the split, what
    is dropped is blank, the last kept line is not blank, and filtering again
    changes nothing. *)
Theorem inputLines_strip_trailing_blanks inputText :
  (exists dropped,
     split_nl inputText = inputLines inputText ++ dropped /\
     Forall (fun l => nonblank l = false) dropped) /\
  match last (inputLines inputText) with Some l => nonblank l = true | None => True end /\
  keep_lines (inputLines inputText) = inputLines inputText.
Proof.
  unfold inputLines.
  destruct (keep_lines_prefix (split_nl inputText)) as (dropped & Hsplit & Hblank & Hlast).
  split; [by exists dropped|]. split; [done|]. by apply keep_lines_fixed.
Qed.

(** ** The parser on concatenated input *)

Lemma parse_from_cons flag line rest :
  parse_from flag (line :: rest) =
  parse_from flag [line] ++ parse_from (flag_after flag [line]) rest.
Proof.
  unfold parse_from, flag_after. simpl.
  rewrite fold_parse_line_result. f_equal.
Qed.

Lemma flag_after_cons flag line rest :
  flag_after flag (line :: rest) = flag_after (flag_after flag [line]) rest.
Proof.
  unfold flag_after. simpl.
  set (st := parse_line {| result := []; inInstantBlock := flag |} line).
  clearbody st. revert st.
  induction rest as [|l rest IH]; intros st; [done|]. simpl.
  rewrite IH. symmetry. rewrite IH. f_equal.
  unfold parse_line. simpl.
  destruct (String.eqb (trim l) "!!"); [done|].
  by destruct (startsWith ">" (trimStart l)).
Qed.

Lemma flag_after_one flag line :
  flag_after flag [line] = if is_marker_line line then negb flag else flag.
Proof.
  unfold flag_after, is_marker_line. simpl. unfold parse_line. simpl.
  destruct (String.eqb (trim line) "!!"); [done|].
  by destruct (startsWith ">" (trimStart line)).
Qed.

Lemma parse_from_app a : forall flag c,
  parse_from flag (a ++ c) = parse_from flag a ++ parse_from (flag_after flag a) c /\
  flag_after flag (a ++ c) = flag_after (flag_after flag a) c.
Proof.
  induction a as [|line a IH]; intros flag c; [done|].
  change ((line :: a) ++ c) with (line :: (a ++ c)).
  rewrite (parse_from_cons flag line (a ++ c)), (flag_after_cons flag line (a ++ c)).
  destruct (IH (flag_after flag [line]) c) as [-> ->].
  rewrite (parse_from_cons flag line a), (flag_after_cons flag line a).
  by rewrite app_assoc.
Qed.

Lemma flag_after_parity a : forall flag,
  flag_after flag a = xorb flag (Nat.odd (length (List.filter is_marker_line a))).
Proof.
  induction a as [|line a IH]; intros flag; [by destruct flag|].
  rewrite flag_after_cons, IH, flag_after_one. simpl.
  destruct (is_marker_line line); [|done]. simpl.
  rewrite Nat.odd_succ, <- Nat.negb_odd.
  by destruct flag, (Nat.odd _).
Qed.

Lemma parse_from_app_parity a c promptText :
  parseLines (a ++ c) promptText =
    parseLines a promptText
    ++ parse_from (Nat.odd (length (List.filter is_marker_line a))) c.
Proof.
  change (parseLines (a ++ c) promptText) with (parse_from false (a ++ c)).
  rewrite (proj1 (parse_from_app a false c)), flag_after_parity. done.
Qed.

(** X2. Parsing a script that continues another: the entries of the first
    part come first, unchanged, and the second part is parsed with the block
    flag the first part left, which is set exactly when the first part holds
    an odd number of marker lines. After a part with balanced markers the
    second part parses as it would alone. *)
Theorem parseLines_app a c promptText :
  parseLines (a ++ c) promptText =
    parseLines a promptText
    ++ parse_from (Nat.odd (length (List.filter is_marker_line a))) c /\
  parse_from false c = parseLines c promptText.
Proof.
  split; [|done].
  change (parseLines (a ++ c) promptText) with (parse_from false (a ++ c)).
  rewrite (proj1 (parse_from_app a false c)), flag_after_parity. done.
Qed.

Lemma parse_from_unmarked rest : forall flag,
  Forall (fun l => is_marker_line l = false) rest ->
  length (parse_from flag rest) = length rest /\
  Forall (fun e => showPrompt e = true \/ instant e = flag) (parse_from flag rest).
Proof.
  induction rest as [|line rest IH]; intros flag Hrest; [by split; [|constructor]|].
  apply Forall_cons in Hrest as [Hline Hrest].
  rewrite parse_from_cons, flag_after_one, Hline.
  destruct (IH flag Hrest) as [Hlen Hall].
  assert (exists e, parse_from flag [line] = [e] /\ (showPrompt e = true \/ instant e = flag))
    as (e & -> & He).
  { unfold parse_from. simpl. unfold parse_line. simpl.
    unfold is_marker_line in Hline. rewrite Hline.
    destruct (startsWith ">" (trimStart line)); simpl; eexists; split; eauto. }
  split; [simpl; by rewrite Hlen|]. by constructor.
Qed.

(** X3. A block that is opened and never closed runs to the end of the
    input: when no marker line follows, every remaining line yields an entry,
    and each of them is either a Command or carries the flag in force. *)
Theorem open_block_runs_to_end a rest promptText :
  Forall (fun l => is_marker_line l = false) rest ->
  exists tail_entries,
    parseLines (a ++ rest) promptText = parseLines a promptText ++ tail_entries /\
    length tail_entries = length rest /\
    Forall (fun e => showPrompt e = true \/
                     instant e = Nat.odd (length (List.filter is_marker_line a)))
           tail_entries.
Proof.
  intros Hrest. eexists. split; [apply parse_from_app_parity|].
  by apply parse_from_unmarked.
Qed.

Lemma open_block_runs_to_end_witness :
  exists tail_entries,
    parseLines (["> ls"; "!!"] ++ ["a.txt"; "b.txt"]) "" =
      parseLines ["> ls"; "!!"] "" ++ tail_entries /\
    length tail_entries = length ["a.txt"; "b.txt"] /\
    Forall (fun e => showPrompt e = true \/
                     instant e = Nat.odd (length (List.filter is_marker_line ["> ls"; "!!"])))
           tail_entries.
Proof.
  apply (open_block_runs_to_end ["> ls"; "!!"] ["a.txt"; "b.txt"] "").
  repeat constructor.
Defined.

(** ** Fitting a capture into a preset *)

Lemma half_twice (x : Q) : (x / 2 * 2 == x)%Q.
Proof. field. Qed.

(** X12. A capture with positive sides, placed into a preset canvas larger
    than its 20-pixel margins: the placed image keeps the capture's aspect
    ratio, fits between the margins, fills the available width or the
    available height, and is centred in both directions. *)
Theorem placeCapture_fits resizedWidth resizedHeight canvasWidth canvasHeight :
  (0 < canvasWidth)%Q -> (0 < canvasHeight)%Q ->
  (40 < resizedWidth)%Q -> (40 < resizedHeight)%Q ->
  let p := placeCapture resizedWidth resizedHeight canvasWidth canvasHeight in
  (placedWidth p * canvasHeight == placedHeight p * canvasWidth)%Q /\
  (0 < placedWidth p)%Q /\ (0 < placedHeight p)%Q /\
  (20 <= drawX p)%Q /\ (drawX p + placedWidth p <= resizedWidth - 20)%Q /\
  (20 <= drawY p)%Q /\ (drawY p + placedHeight p <= resizedHeight - 20)%Q /\
  (placedWidth p == resizedWidth - 40 \/ placedHeight p == resizedHeight - 40)%Q /\
  (drawX p - 0 == resizedWidth - (drawX p + placedWidth p))%Q /\
  (drawY p - 0 == resizedHeight - (drawY p + placedHeight p))%Q.
Proof.
  intros Hcw Hch Hw Hh. unfold placeCapture.
  set (maxW := (resizedWidth - 10 * 2 * 2)%Q).
  set (maxH := (resizedHeight - 10 * 2 * 2)%Q).
  set (a := (canvasWidth / canvasHeight)%Q).
  assert (0 < a)%Q as Ha.
  { unfold a. apply Qlt_shift_div_l; lra. }
  assert (0 < maxW)%Q as HmW by (unfold maxW; lra).
  assert (0 < maxH)%Q as HmH by (unfold maxH; lra).
  assert (maxW / a * a == maxW)%Q as Hround.
  { rewrite Qmult_comm. apply Qmult_div_r. lra. }
  assert (a * canvasHeight == canvasWidth)%Q as Haspect.
  { unfold a. rewrite Qmult_comm. apply Qmult_div_r. lra. }
  assert (0 < maxW / a)%Q as Hpos.
  { apply Qlt_shift_div_l; lra. }
  destruct (Qlt_le_dec maxH (maxW / a)) as [Hlt|Hge]; simpl.
  - assert (maxH * a < maxW)%Q as Hfit.
    { rewrite <- Hround. apply Qmult_lt_r; lra. }
    assert (0 < maxH * a)%Q as Hpw by (apply Qmult_lt_0_compat; lra).
    split; [rewrite <- Qmult_assoc, Haspect; reflexivity|].
    clear Hround Haspect Hlt Hpos. set (w := (maxH * a)%Q) in *. clearbody w.
    pose proof (half_twice (maxW - w)) as Hx. pose proof (half_twice (maxH - maxH)) as Hy.
    set (mx := ((maxW - w) / 2)%Q) in *. set (my := ((maxH - maxH) / 2)%Q) in *.
    clearbody mx my. unfold maxW, maxH in *. clear - Hfit Hpw Hw Hh Hx Hy.
    repeat split; lra.
  - split; [rewrite <- Haspect, Qmult_assoc, Hround; reflexivity|].
    clear Hround Haspect. set (h := (maxW / a)%Q) in *. clearbody h.
    pose proof (half_twice (maxW - maxW)) as Hx. pose proof (half_twice (maxH - h)) as Hy.
    set (mx := ((maxW - maxW) / 2)%Q) in *. set (my := ((maxH - h) / 2)%Q) in *.
    clearbody mx my. unfold maxW, maxH in *. clear - Hge Hpos Hw Hh Hx Hy.
    repeat split; lra.
Qed.

Lemma placeCapture_fits_witness :
  let p := placeCapture 2400 1254 1600 620 in
  (placedWidth p * 620 == placedHeight p * 1600)%Q /\
  (0 < placedWidth p)%Q /\ (0 < placedHeight p)%Q /\
  (20 <= drawX p)%Q /\ (drawX p + placedWidth p <= 2400 - 20)%Q /\
  (20 <= drawY p)%Q /\ (drawY p + placedHeight p <= 1254 - 20)%Q /\
  (placedWidth p == 2400 - 40 \/ placedHeight p == 1254 - 40)%Q /\
  (drawX p - 0 == 2400 - (drawX p + placedWidth p))%Q /\
  (drawY p - 0 == 1254 - (drawY p + placedHeight p))%Q.
Proof.
  apply (placeCapture_fits 2400 1254 1600 620); reflexivity.
Defined.

(** ** Hold durations *)

Lemma inject_nat_pos N : (1 <= N)%nat -> (1 <= inject_Z (Z.of_nat N))%Q.
Proof.
  intros H. change 1%Q with (inject_Z 1). rewrite <- Zle_Qle. lia.
Qed.

Lemma batch_delay_bounds N :
  (1 <= N)%nat -> (200 <= batch_delay N)%Q /\ (batch_delay N <= 350)%Q.
Proof.
  intros HN. pose proof (inject_nat_pos N HN) as Hq.
  unfold batch_delay. set (q := inject_Z (Z.of_nat N)) in *.
  assert (q * (200 / q) == 200)%Q as Hmul by (apply Qmult_div_r; lra).
  destruct (Qlt_le_dec q 4) as [Hsmall|Hbig].
  - assert (Qmin 50 (200 / q) == 50)%Q as Hmin.
    { apply Q.min_l. apply Qle_shift_div_l; lra. }
    rewrite Hmin. rewrite Q.min_l; lra.
  - assert (Qmin 50 (200 / q) == 200 / q)%Q as Hmin.
    { apply Q.min_r. apply Qle_shift_div_r; lra. }
    rewrite Hmin, Hmul. rewrite Q.min_l; lra.
Qed.

(** X4. The hold of a batch of [N >= 1] instant lines is
    [150 + 50 * min(N, 4)] ms: 200, 250, 300, then 350 for every longer
    batch. It lies between 200 and 350, so the cap at 400 never applies. *)
Theorem batch_delay_closed_form N :
  (1 <= N)%nat ->
  (batch_delay N == 150 + 50 * inject_Z (Z.of_nat (Nat.min N 4)))%Q /\
  (200 <= batch_delay N)%Q /\ (batch_delay N <= 350)%Q /\
  (batch_delay N == 150 + inject_Z (Z.of_nat N) * Qmin 50 (200 / inject_Z (Z.of_nat N)))%Q.
Proof.
  intros HN. pose proof (inject_nat_pos N HN) as Hq.
  unfold batch_delay. set (q := inject_Z (Z.of_nat N)) in *.
  assert (q * (200 / q) == 200)%Q as Hmul by (apply Qmult_div_r; lra).
  destruct (Nat.le_gt_cases N 4) as [Hsmall|Hbig].
  - assert (q <= 4)%Q as Hq4.
    { unfold q. change 4%Q with (inject_Z 4). rewrite <- Zle_Qle. lia. }
    assert (Qmin 50 (200 / q) == 50)%Q as Hmin.
    { apply Q.min_l. apply Qle_shift_div_l; lra. }
    rewrite Nat.min_l by done. fold q.
    assert (Qmin (150 + q * Qmin 50 (200 / q)) 400 == 150 + 50 * q)%Q as Heq.
    { rewrite Hmin. rewrite Q.min_l; lra. }
    rewrite Heq, Hmin. repeat split; lra.
  - assert (4 <= q)%Q as Hq4.
    { unfold q. change 4%Q with (inject_Z 4). rewrite <- Zle_Qle. lia. }
    assert (Qmin 50 (200 / q) == 200 / q)%Q as Hmin.
    { apply Q.min_r. apply Qle_shift_div_r; lra. }
    rewrite Nat.min_r by lia.
    assert (Qmin (150 + q * Qmin 50 (200 / q)) 400 == 350)%Q as Heq.
    { rewrite Hmin, Hmul. by apply Q.min_l. }
    rewrite Heq, Hmin, Hmul. repeat split; lra.
Qed.

Lemma batch_delay_closed_form_witness :
  (batch_delay 7 == 150 + 50 * inject_Z (Z.of_nat (Nat.min 7 4)))%Q /\
  (200 <= batch_delay 7)%Q /\ (batch_delay 7 <= 350)%Q /\
  (batch_delay 7 == 150 + inject_Z (Z.of_nat 7) * Qmin 50 (200 / inject_Z (Z.of_nat 7)))%Q.
Proof. apply (batch_delay_closed_form 7). lia. Defined.

(** ** Canvas size *)

Lemma fold_max_bounds {A} (f : A -> Q) (l : list A) : forall init,
  (init <= fold_left (fun m x => Qmax m (f x)) l init)%Q /\
  Forall (fun x => (f x <= fold_left (fun m x => Qmax m (f x)) l init)%Q) l.
Proof.
  induction l as [|a l IH]; intros init; simpl.
  - split; [lra|constructor].
  - destruct (IH (Qmax init (f a))) as [Hinit Hall].
    pose proof (Q.le_max_l init (f a)). pose proof (Q.le_max_r init (f a)).
    split; [lra|]. constructor; [lra|done].
Qed.

Lemma fold_count_lines {A} (extra : A -> nat) (l : list A) : forall init,
  (init + length l <= fold_left (fun t x => t + extra x + 1) l init)%nat.
Proof.
  induction l as [|a l IH]; intros init; simpl; [lia|].
  specialize (IH (init + extra a + 1)%nat). lia.
Qed.

Lemma split_nl_nonempty s : (1 <= length (split_nl s))%nat.
Proof.
  induction s as [|c s IH]; simpl; [lia|].
  destruct (Ascii.eqb c newline); simpl; [lia|].
  destruct (split_nl s); simpl in *; lia.
Qed.

Section CanvasSize.
Variable measureText : Q -> string -> string -> Q.

Lemma canvas_min_size config theme lines scale :
  let dims := calculateCanvasDimensions measureText config theme lines scale in
  (400 * scale <= fst dims)%Q /\
  ((if showTitle config then 40 * scale else 0) + 100 * scale <= snd dims)%Q.
Proof.
  unfold calculateCanvasDimensions. cbn [fst snd].
  split; [apply Q.le_max_l|]. apply Qplus_le_r, Q.le_max_l.
Qed.

(** X8. The canvas computed from the content is at least [400 * scale] wide
    and, below the title bar, at least [100 * scale] high; and it is wide
    enough for the text row of every line: the last part of the prompt, when
    the line shows it, followed by the line's text, with the padding on both
    sides and a margin of [40 * scale]. The earlier parts of a multi-line
    prompt are not measured and the bound says nothing about them. *)
Theorem canvas_holds_every_line config theme lines scale :
  let dims := calculateCanvasDimensions measureText config theme lines scale in
  (400 * scale <= fst dims)%Q /\
  ((if showTitle config then 40 * scale else 0) + 100 * scale <= snd dims)%Q /\
  Forall (fun line =>
            (line_width measureText config scale line
             + padding config * scale * 2 + 40 * scale <= fst dims)%Q)
         lines.
Proof.
  intros dims.
  destruct (canvas_min_size config theme lines scale) as [Hw Hh].
  split; [exact Hw|]. split; [exact Hh|].
  unfold dims, calculateCanvasDimensions. cbn [fst snd].
  set (f := fun line : DisplayLine => line_width measureText config scale line).
  set (maxLineWidth := fold_left _ lines 0%Q).
  assert (maxLineWidth = fold_left (fun m x => Qmax m (f x)) lines 0%Q) as Hfold by done.
  destruct (fold_max_bounds f lines 0%Q) as [_ Hall]. rewrite <- Hfold in Hall.
  eapply Forall_impl; [exact Hall|]. intros line Hline.
  eapply Qle_trans; [|apply Q.le_max_r].
  do 2 apply Qplus_le_l. exact Hline.
Qed.

(** X9. With a non-negative font size and line height, the content-sized
    canvas is high enough for one row per line and one more for the resting
    cursor, plus the padding and a margin of [20 * scale]. *)
Theorem canvas_holds_every_row config theme lines scale :
  (0 <= fontSize config * scale)%Q -> (0 <= lineHeight config)%Q ->
  ((if showTitle config then 40 * scale else 0)
   + (inject_Z (Z.of_nat (length lines + 1)) * (fontSize config * scale) * lineHeight config
      + padding config * scale * 2 + 20 * scale)
   <= snd (calculateCanvasDimensions measureText config theme lines scale))%Q.
Proof.
  intros Hfs Hlh. unfold calculateCanvasDimensions. cbn [fst snd].
  set (rows := fold_left _ lines 0%nat).
  assert (length lines <= rows)%nat as Hrows.
  { pose proof (fold_count_lines
                  (fun line : DisplayLine =>
                     if line_showPrompt line && truthy_string (promptText config)
                        && includes_nl (promptText config)
                     then (length (split_nl (promptText config)) - 1)%nat else 0%nat)
                  lines 0) as H.
    unfold rows. simpl in H. exact H. }
  set (total := if truthy_string (promptText config) && includes_nl (promptText config)
                then (rows + length (split_nl (promptText config)))%nat
                else (rows + 1)%nat).
  assert (length lines + 1 <= total)%nat as Htotal.
  { unfold total. pose proof (split_nl_nonempty (promptText config)).
    destruct (truthy_string (promptText config) && includes_nl (promptText config)); lia. }
  assert (inject_Z (Z.of_nat (length lines + 1)) <= inject_Z (Z.of_nat total))%Q as Hq.
  { rewrite <- Zle_Qle. lia. }
  assert (inject_Z (Z.of_nat (length lines + 1)) * (fontSize config * scale) * lineHeight config
          <= inject_Z (Z.of_nat total) * (fontSize config * scale) * lineHeight config)%Q as Hmul.
  { apply Qmult_le_compat_r; [|done]. by apply Qmult_le_compat_r. }
  pose proof (Q.le_max_r (100 * scale)
                (inject_Z (Z.of_nat total) * (fontSize config * scale) * lineHeight config
                 + padding config * scale * 2 + 20 * scale)) as H.
  lra.
Qed.
End CanvasSize.

Lemma canvas_holds_every_row_witness :
  ((if showTitle sample_config then 40 * 2 else 0)
   + (inject_Z (Z.of_nat (length [ {| line_text := "ls"; line_showPrompt := true |} ] + 1))
      * (fontSize sample_config * 2) * lineHeight sample_config
      + padding sample_config * 2 * 2 + 20 * 2)
   <= snd (calculateCanvasDimensions monospace sample_config sample_theme
             [ {| line_text := "ls"; line_showPrompt := true |} ] 2))%Q.
Proof.
  apply (canvas_holds_every_row monospace sample_config sample_theme
           [ {| line_text := "ls"; line_showPrompt := true |} ] 2); discriminate.
Defined.

(** ** One cursor per exported frame *)

Lemma filter_none {A} (f : A -> bool) (l : list A) :
  Forall (fun x => f x = false) l -> List.filter f l = [].
Proof.
  induction 1 as [|x l Hx _ IH]; [done|]. simpl. by rewrite Hx.
Qed.

Section CursorCount.
Variable measureText : Q -> string -> string -> Q.

Lemma draw_prompt_only_prompt config fs x y :
  Forall (fun p => is_cursor_paint p = false) (draw_prompt measureText config fs x y).1.1.
Proof.
  unfold draw_prompt.
  destruct (1 <? length (split_nl (promptText config)))%nat; simpl.
  - apply Forall_app. split; [|by repeat constructor].
    apply Forall_forall. intros p Hp.
    apply elem_of_lookup_imap in Hp as (k & part & -> & _). done.
  - by repeat constructor.
Qed.

Lemma draw_lines_cursor_count config theme sc ci scale ls : forall k y,
  length (List.filter is_cursor_paint
            (draw_lines measureText config theme sc ci scale ls k y).1)
  = if sc && (k <=? ci)%nat && (ci <? k + length ls)%nat then 1%nat else 0%nat.
Proof.
  induction ls as [|line rest IH]; intros k y.
  - simpl. destruct sc, (Nat.leb_spec k ci), (Nat.ltb_spec ci (k + 0)); simpl; lia.
  - cbn [draw_lines].
    set (fs := (fontSize config * scale)%Q).
    set (pad := (padding config * scale)%Q).
    destruct (if line_showPrompt line && truthy_string (promptText config)
              then draw_prompt measureText config fs pad y
              else ([], pad, y)) as [[promptPaint currentX] currentY] eqn:Hprompt.
    assert (List.filter is_cursor_paint promptPaint = []) as Hpp.
    { apply filter_none.
      destruct (line_showPrompt line && truthy_string (promptText config)).
      - pose proof (draw_prompt_only_prompt config fs pad y) as H.
        by rewrite Hprompt in H.
      - injection Hprompt as <- _ _. constructor. }
    specialize (IH (S k) (currentY + fs * lineHeight config)%Q).
    destruct (draw_lines measureText config theme sc ci scale rest (S k)
                (currentY + fs * lineHeight config)%Q) as [restPaint endY].
    cbn [fst] in *. rewrite !List.filter_app, Hpp, !length_app, IH. cbn [length].
    destruct sc; [cbn [andb]|done].
    destruct (Nat.eqb_spec ci k), (Nat.leb_spec k ci), (Nat.leb_spec (S k) ci),
      (Nat.ltb_spec ci (k + S (length rest))), (Nat.ltb_spec ci (S k + length rest));
      simpl in *; lia.
Qed.

Lemma draw_lines_no_resting config theme sc ci scale ls : forall k y,
  Forall (fun p => is_resting_cursor p = false)
         (draw_lines measureText config theme sc ci scale ls k y).1.
Proof.
  induction ls as [|line rest IH]; intros k y; [constructor|].
  cbn [draw_lines].
  set (fs := (fontSize config * scale)%Q).
  set (pad := (padding config * scale)%Q).
  destruct (if line_showPrompt line && truthy_string (promptText config)
            then draw_prompt measureText config fs pad y
            else ([], pad, y)) as [[promptPaint currentX] currentY] eqn:Hprompt.
  assert (Forall (fun p => is_resting_cursor p = false) promptPaint) as Hpp.
  { destruct (line_showPrompt line && truthy_string (promptText config)).
    - pose proof (draw_prompt_only_prompt config fs pad y) as H.
      rewrite Hprompt in H. eapply Forall_impl; [exact H|]. by intros [].
    - injection Hprompt as <- _ _. constructor. }
  specialize (IH (S k) (currentY + fs * lineHeight config)%Q).
  destruct (draw_lines measureText config theme sc ci scale rest (S k)
              (currentY + fs * lineHeight config)%Q) as [restPaint endY].
  cbn [fst] in *. repeat (apply Forall_app; split); try done.
  - by repeat constructor.
  - destruct (sc && (ci =? k)%nat); by repeat constructor.
Qed.

Lemma drawTerminal_cursor_count config theme ls sc ci scale :
  length (List.filter is_cursor_paint (drawTerminal measureText config theme ls sc ci scale))
    = (if sc then 1%nat else 0%nat) /\
  length (List.filter is_resting_cursor (drawTerminal measureText config theme ls sc ci scale))
    = (if sc && (length ls <=? ci)%nat then 1%nat else 0%nat).
Proof.
  unfold drawTerminal.
  set (y0 := ((if showTitle config then (40 * scale)%Q else 0%Q) + padding config * scale)%Q).
  pose proof (draw_lines_cursor_count config theme sc ci scale ls 0 y0) as Hlines.
  pose proof (draw_lines_no_resting config theme sc ci scale ls 0 y0) as Hnone.
  destruct (draw_lines measureText config theme sc ci scale ls 0 y0)
    as [linePaint currentY].
  cbn [fst] in Hlines, Hnone. rewrite !List.filter_app, !length_app, Hlines.
  assert (List.filter is_resting_cursor linePaint = []) as Hrest.
  { by apply filter_none. }
  rewrite Hrest. cbn [length]. rewrite ?Nat.add_0_l.
  destruct sc; cbn [andb]; [|simpl; split; lia].
  destruct (Nat.leb_spec (length ls) ci), (Nat.ltb_spec ci (length ls)); try lia.
  - destruct (truthy_string (promptText config)).
    + pose proof (draw_prompt_only_prompt config (fontSize config * scale)%Q
                    (padding config * scale)%Q currentY) as Hp.
      destruct (draw_prompt measureText config (fontSize config * scale)
                  (padding config * scale) currentY) as [[pp cx] cy].
      cbn [fst] in Hp. rewrite !List.filter_app, (filter_none _ _ Hp).
      assert (List.filter is_resting_cursor pp = []) as ->; [|simpl; split; lia].
      apply filter_none. eapply Forall_impl; [exact Hp|]. by intros [].
    + simpl. split; lia.
  - simpl. split; lia.
Qed.
(** X6. Every frame the export paints carries exactly one cursor glyph: it
    is the resting cursor below the lines when the frame's cursor index is
    not the index of a displayed line, and a cursor on that line otherwise. *)
Theorem exported_frame_one_cursor adjustedConfig theme size tf f :
  createFrame measureText adjustedConfig theme size tf = Some f ->
  cursor_count (canvas f) = 1%nat /\
  length (List.filter is_resting_cursor (painted (canvas f)))
    = (if (length (tf_lines tf) <=? tf_cursorLineIndex tf)%nat then 1%nat else 0%nat).
Proof.
  unfold createFrame, createTerminalCanvas, dense. cbn [lines showCursor cursorLineIndex].
  destruct (mapM id (tf_lines tf)) as [ls|] eqn:Hdense; [|done].
  apply length_mapM in Hdense. intros Hf.
  assert (painted (canvas f) =
          drawTerminal measureText adjustedConfig theme ls true (tf_cursorLineIndex tf) 2)
    as Hpaint.
  { destruct (truthy_number (Some size.1) && truthy_number (Some size.2));
      [|destruct (calculateCanvasDimensions measureText adjustedConfig theme ls 2)];
      injection Hf as <-; reflexivity. }
  unfold cursor_count. rewrite Hpaint, Hdense.
  apply (drawTerminal_cursor_count adjustedConfig theme ls true (tf_cursorLineIndex tf) 2).
Qed.

Lemma finalCanvasSize_nonzero parsedLines config theme options :
  truthy_number (Some (fst (finalCanvasSize measureText parsedLines config theme options)))
  && truthy_number (Some (snd (finalCanvasSize measureText parsedLines config theme options)))
  = true.
Proof.
  assert (forall q, (0 < q)%Q -> truthy_number (Some q) = true) as Hpos.
  { intros q Hq. apply truthy_number_Some. lra. }
  assert (forall cfg,
            truthy_number (Some (fst (calculateCanvasDimensions measureText cfg theme
                                        (finalLinesOf parsedLines) 2)))
            && truthy_number (Some (snd (calculateCanvasDimensions measureText cfg theme
                                           (finalLinesOf parsedLines) 2))) = true) as Hcalc.
  { intros cfg.
    destruct (canvas_min_size measureText cfg theme (finalLinesOf parsedLines) 2)
      as (Hw & Hh).
    rewrite !Hpos; [done| |lra].
    destruct (showTitle cfg); lra. }
  unfold finalCanvasSize.
  destruct (targetWidth options) as [tw|] eqn:Etw; [|apply Hcalc].
  destruct (targetHeight options) as [th|] eqn:Eth; [|apply Hcalc].
  destruct (truthy_number (Some tw)) eqn:Htw; [|apply Hcalc].
  destruct (truthy_number (Some th)) eqn:Hth; [|apply Hcalc].
  cbn [andb fst snd].
  assert (forall q, truthy_number (Some q) = true -> truthy_number (Some (q * 2)%Q) = true) as H2.
  { intros q Hq. apply truthy_number_Some. intros Hz.
    unfold truthy_number in Hq. apply negb_true_iff in Hq.
    assert (q == 0)%Q as Hq0 by lra. apply Qeq_bool_iff in Hq0. congruence. }
  by rewrite !H2.
Qed.

(** X7. All frames of one export have the same canvas: each is as wide and
    as high as the size fixed before the first frame is painted (twice the
    target dimensions when they are given, the size of the full content
    otherwise). *)
Theorem frames_share_canvas_size parsedLines config theme options :
  exists fs,
    generateAnimationFrames measureText parsedLines config theme options = Some fs /\
    length fs = length (generateTimeline parsedLines config options) /\
    Forall (fun f =>
              width (canvas f)
                = fst (finalCanvasSize measureText parsedLines config theme options) /\
              height (canvas f)
                = snd (finalCanvasSize measureText parsedLines config theme options))
           fs.
Proof.
  destruct (generateAnimationFrames_total measureText parsedLines config theme options)
    as (fs & Hfs & Hall).
  exists fs. split; [done|]. clear Hfs. split; [symmetry; by eapply Forall2_length|].
  pose proof (finalCanvasSize_nonzero parsedLines config theme options) as Hnz.
  induction Hall as [|tf f tfs fs' [_ Hf] _ IH]; constructor.
  - unfold createFrame, createTerminalCanvas in Hf. cbn [lines] in Hf.
    destruct (dense (tf_lines tf)) as [ls|]; [|done].
    rewrite Hnz in Hf. injection Hf as <-. done.
  - apply IH.
Qed.
End CursorCount.

Lemma exported_frame_one_cursor_witness :
  exists f,
    createFrame monospace sample_config sample_theme (800, 310)%Q
      {| tf_lines := [Some {| line_text := "ls"; line_showPrompt := true |}];
         tf_cursorLineIndex := 1; tf_delay := 150 |} = Some f /\
    cursor_count (canvas f) = 1%nat /\
    length (List.filter is_resting_cursor (painted (canvas f)))
      = (if (1 <=? 1)%nat then 1%nat else 0%nat).
Proof.
  eexists. split; [vm_compute; reflexivity|].
  apply (exported_frame_one_cursor monospace sample_config sample_theme (800, 310)%Q
           {| tf_lines := [Some {| line_text := "ls"; line_showPrompt := true |}];
              tf_cursorLineIndex := 1; tf_delay := 150 |}).
  vm_compute; reflexivity.
Defined.

(** ** Every frame of the timeline *)

Section TimelineFrames.
Variable parsedLines : list Entry.
Variable mode : string.
Variable charsPerFrame : option nat.
Variable speed : Q.

Local Abbreviation shown := (revealed parsedLines).
Local Abbreviation n := (length parsedLines).

(** The two shapes an iteration of the main loop can take. *)
Lemma gen_body_cases st k :
  lineIdx st = k -> displayLines st = shown k -> (k < n)%nat ->
  (exists e,
     parsedLines !! k = Some e /\ shouldBeInstant mode e = false /\
     gen_body parsedLines mode charsPerFrame speed st =
     {| frames := frames st
                  ++ typed_frames parsedLines charsPerFrame speed k e (charCounter st)
                       (String.length (text e))
                  ++ (if (S k <? n)%nat
                      then [ {| tf_lines := shown (S k); tf_cursorLineIndex := S k;
                                tf_delay := 150 |} ]
                      else []);
        displayLines := shown (S k);
        charCounter := charCounter st + String.length (text e);
        lineIdx := S k |}) \/
  (exists e run post,
     parsedLines !! k = Some e /\ shouldBeInstant mode e = true /\
     drop (S k) parsedLines = run ++ post /\
     Forall (fun e => shouldBeInstant mode e = true) run /\
     (S (k + length run) <= n)%nat /\
     gen_body parsedLines mode charsPerFrame speed st =
     {| frames := frames st
                  ++ [ {| tf_lines := shown (S (k + length run));
                          tf_cursorLineIndex := k + length run;
                          tf_delay := batch_delay (length run + 1) |} ]
                  ++ (if (S (k + length run) <? n)%nat
                      then [ {| tf_lines := shown (S (k + length run));
                                tf_cursorLineIndex := S (k + length run);
                                tf_delay := 150 |} ]
                      else []);
        displayLines := shown (S (k + length run));
        charCounter := charCounter st;
        lineIdx := S (k + length run) |}).
Proof.
  intros Hk Hdl Hkn.
  destruct (lookup_lt_is_Some_2 parsedLines k Hkn) as [e He].
  destruct (shouldBeInstant mode e) eqn:Hinst.
  - right.
    destruct (instant_prefix mode (drop (S k) parsedLines))
      as (run & post & Hdrop & Hrun & Hpost).
    exists e, run, post. repeat split; try done.
    + apply (f_equal length) in Hdrop. rewrite length_drop, length_app in Hdrop. lia.
    + by apply (gen_body_instant parsedLines mode charsPerFrame speed st k e run post).
  - left. exists e. repeat split; try done.
    by apply (gen_body_typed parsedLines mode charsPerFrame speed st k e).
Qed.

Lemma typed_frames_Forall (P : TimelineFrame -> Prop) k e c upto :
  (forall j, (j < upto)%nat ->
     P {| tf_lines := shown k ++ [partial_line e (j + 1)];
          tf_cursorLineIndex := k; tf_delay := Qmax 30 speed |}) ->
  Forall P (typed_frames parsedLines charsPerFrame speed k e c upto).
Proof.
  intros HP. unfold typed_frames. apply Forall_flat_map, Forall_forall.
  intros j Hj. apply list_elem_of_In, in_seq in Hj.
  destruct (_ || _); [|constructor]. apply Forall_singleton, HP. lia.
Qed.

(** A property of the five kinds of frame is a property of every frame. *)
Lemma timeline_Forall (P : TimelineFrame -> Prop) :
  P {| tf_lines := []; tf_cursorLineIndex := 0; tf_delay := 500 |} ->
  (forall k e j,
     parsedLines !! k = Some e -> shouldBeInstant mode e = false ->
     (j < String.length (text e))%nat ->
     P {| tf_lines := shown k ++ [partial_line e (j + 1)];
          tf_cursorLineIndex := k; tf_delay := Qmax 30 speed |}) ->
  (forall k m,
     (1 <= m)%nat -> (k + m <= n)%nat ->
     P {| tf_lines := shown (k + m); tf_cursorLineIndex := k + m - 1;
          tf_delay := batch_delay m |}) ->
  (forall k, (1 <= k)%nat -> (k < n)%nat ->
     P {| tf_lines := shown k; tf_cursorLineIndex := k; tf_delay := 150 |}) ->
  P {| tf_lines := shown n; tf_cursorLineIndex := n; tf_delay := 2000 |} ->
  Forall P (timeline parsedLines mode charsPerFrame speed).
Proof.
  intros Hwarm Htyped Hbatch Hinter Hfinal.
  assert (forall fuel st k,
            lineIdx st = k -> displayLines st = shown k -> (k <= n)%nat ->
            Forall P (frames st) ->
            Forall P (frames (gen_loop parsedLines mode charsPerFrame speed fuel st)))
    as Hloop.
  { induction fuel as [|fuel IH]; intros st k Hk Hdl Hkn Hfs; [done|].
    simpl. destruct (Nat.ltb_spec (lineIdx st) n) as [Hlt|Hge]; [|done].
    destruct (gen_body_cases st k Hk Hdl ltac:(lia))
      as [(e & He & Hinst & ->)|(e & run & post & He & Hinst & Hdrop & Hrun & Hle & ->)].
    - apply (IH _ (S k)); try done; [lia|]. cbn [frames].
      repeat (apply Forall_app; split); try done.
      + apply typed_frames_Forall. intros j Hj. by apply (Htyped k e j).
      + destruct (Nat.ltb_spec (S k) n); [|constructor].
        apply Forall_singleton, Hinter; lia.
    - apply (IH _ (S (k + length run))); try done. cbn [frames].
      repeat (apply Forall_app; split); try done.
      + apply Forall_singleton.
        pose proof (Hbatch k (length run + 1)%nat ltac:(lia) ltac:(lia)) as H.
        replace (k + (length run + 1))%nat with (S (k + length run)) in H by lia.
        by replace (S (k + length run) - 1)%nat with (k + length run)%nat in H by lia.
      + destruct (Nat.ltb_spec (S (k + length run)) n); [|constructor].
        apply Forall_singleton, Hinter; lia. }
  unfold timeline.
  set (st0 := {| frames := push_frame [] 0 500 []; displayLines := [];
                 charCounter := 0; lineIdx := 0 |}).
  destruct (gen_loop_spec parsedLines mode charsPerFrame speed n st0 0)
    as (new & c' & Heq & _); try done; try lia.
  unfold push_frame, snapshot. apply Forall_app. split.
  - apply (Hloop n st0 0%nat); try done; [lia|].
    unfold st0, push_frame, snapshot. cbn [frames]. by apply Forall_singleton.
  - rewrite Heq. cbn [displayLines]. by apply Forall_singleton.
Qed.

Lemma timeline_hold_min :
  Forall (fun f => (30 <= tf_delay f)%Q) (timeline parsedLines mode charsPerFrame speed).
Proof.
  apply timeline_Forall; cbn [tf_delay].
  - lra.
  - intros k e j _ _ _. apply Q.le_max_l.
  - intros k m Hm _. destruct (batch_delay_bounds m Hm) as (Hlo & _). lra.
  - intros k _ _. lra.
  - lra.
Qed.

(** X5. In every frame of the timeline the hold lies between 30 ms and the
    larger of 2000 ms and the typing speed, the cursor index is at most the
    number of lines the frame shows, and the frame shows at most as many
    lines as there are entries. *)
Theorem timeline_frames_well_formed :
  Forall (fun f =>
            (30 <= tf_delay f)%Q /\ (tf_delay f <= Qmax 2000 speed)%Q /\
            (tf_cursorLineIndex f <= length (tf_lines f))%nat /\
            (length (tf_lines f) <= n)%nat)
         (timeline parsedLines mode charsPerFrame speed).
Proof.
  pose proof (Q.le_max_l 2000 speed) as Hmax.
  apply timeline_Forall; cbn [tf_delay tf_cursorLineIndex tf_lines].
  - repeat split; [lra|lra|done|simpl; lia].
  - intros k e j He _ Hj.
    assert (k < n)%nat by (by eapply lookup_lt_Some).
    rewrite length_app, shown_length by lia. simpl.
    repeat split; [apply Q.le_max_l| |lia|lia].
    apply Q.max_le_compat_r. lra.
  - intros k m Hm Hkm. rewrite shown_length by lia.
    destruct (batch_delay_bounds m Hm) as (Hlo & Hhi).
    repeat split; [lra|lra|lia|lia].
  - intros k Hk Hkn. rewrite shown_length by lia. repeat split; [lra|lra|lia|lia].
  - rewrite shown_length by lia. repeat split; [lra|lra|lia|lia].
Qed.
End TimelineFrames.

(** ** From the generator to the encoder *)

Lemma js_round_at_least_3 d : (30 <= d)%Q -> (3 <= js_round (d / 10))%Z.
Proof.
  intros Hd. unfold js_round.
  assert (3 <= d / 10)%Q as H3 by (apply Qle_shift_div_l; lra).
  change 3%Z with (Qfloor (3 + (1 # 2))). apply Qfloor_resp_le. lra.
Qed.

(** X10. Encoding what the generator produced never fails with "No frames
    provided": there are always at least two frames, one [writeFrame] call is
    made per frame, and for these frames the lower bound of 2 centiseconds
    never applies, the written delay being [round(hold / 10) >= 3]. *)
Theorem export_frames_encode measureText parsedLines config theme options :
  exists fs calls,
    generateAnimationFrames measureText parsedLines config theme options = Some fs /\
    createGIF fs = inr calls /\
    (2 <= length fs)%nat /\
    Forall2 (fun f c => wf_delay c = js_round (delay f / 10) /\ (3 <= wf_delay c)%Z /\
                        wf_width c = width (canvas f) /\ wf_height c = height (canvas f))
            fs calls.
Proof.
  destruct (generateAnimationFrames_total measureText parsedLines config theme options)
    as (fs & Hfs & Hall).
  pose proof (timeline_hold_min parsedLines (effectiveMode config)
                (charsPerFrameOf (typedChars (effectiveMode config) parsedLines)
                   (targetFrameCount options))
                (typingSpeed options)) as Hwf.
  fold (generateTimeline parsedLines config options) in Hwf.
  assert (2 <= length (generateTimeline parsedLines config options))%nat as Hlen.
  { unfold generateTimeline.
    destruct (timeline_shape parsedLines (effectiveMode config)
                (charsPerFrameOf (typedChars (effectiveMode config) parsedLines)
                   (targetFrameCount options))
                (typingSpeed options)) as (body & -> & _).
    rewrite !length_app. simpl. lia. }
  rewrite (Forall2_length _ _ _ Hall) in Hlen.
  exists fs, (map write_frame fs). split; [done|]. split; [|split; [done|]].
  - destruct fs; [simpl in Hlen; lia|done].
  - clear Hfs Hlen.
    induction Hall as [|tf f tfs fs' [Hd _] _ IH]; [constructor|].
    apply Forall_cons in Hwf as [Hlo Hwf].
    simpl. constructor; [|by apply IH].
    unfold write_frame; simpl. rewrite Hd.
    pose proof (js_round_at_least_3 (tf_delay tf) Hlo). repeat split; lia.
Qed.

(** ** How many frames *)

Lemma throttle_hits_step cpf c :
  (throttle_hits cpf c + (if counter_hits cpf (S c) then 1 else 0)
   <= throttle_hits cpf (S c))%nat.
Proof.
  unfold throttle_hits, counter_hits. destruct cpf as [k|]; [|lia].
  pose proof (Nat.Div0.div_le_mono c (S c) k ltac:(lia)) as Hmono.
  destruct (Nat.eqb_spec (S c mod k) 0) as [Hz|]; [|lia].
  apply Nat.Div0.div_exact in Hz.
  assert (c / k < S c / k)%nat; [|lia].
  apply Nat.Div0.div_lt_upper_bound. lia.
Qed.

Lemma typed_frames_length parsedLines cpf speed k e c : forall j,
  (length (typed_frames parsedLines cpf speed k e c j) + throttle_hits cpf c
   <= throttle_hits cpf (c + j)
      + (if (String.length (text e) - 1 <? j)%nat then 1 else 0))%nat.
Proof.
  induction j as [|j IH].
  - unfold typed_frames. cbn [seq flat_map length].
    replace (c + 0)%nat with c by lia. lia.
  - unfold typed_frames in *. rewrite seq_S, flat_map_app, length_app. simpl.
    rewrite app_nil_r.
    pose proof (throttle_hits_step cpf (c + j)) as Hstep.
    replace (c + S j)%nat with (S (c + j)) by lia.
    destruct (counter_hits cpf (S (c + j))); simpl.
    + destruct (Nat.ltb_spec (String.length (text e) - 1) j),
               (Nat.ltb_spec (String.length (text e) - 1) (S j)); simpl in *; lia.
    + destruct (Nat.eqb_spec j (String.length (text e) - 1));
        destruct (Nat.ltb_spec (String.length (text e) - 1) j),
                 (Nat.ltb_spec (String.length (text e) - 1) (S j)); simpl in *; lia.
Qed.

Lemma typedChars_fold mode l : forall a,
  fold_left (fun sum l => if shouldBeInstant mode l then sum
                          else (sum + String.length (text l))%nat) l a
  = (a + typedChars mode l)%nat.
Proof.
  unfold typedChars. induction l as [|e l IH]; intros a; simpl; [lia|].
  rewrite IH. symmetry. rewrite IH. destruct (shouldBeInstant mode e); lia.
Qed.

Lemma typedChars_app mode a b :
  typedChars mode (a ++ b) = (typedChars mode a + typedChars mode b)%nat.
Proof.
  unfold typedChars at 1. rewrite fold_left_app.
  fold (typedChars mode a). apply typedChars_fold.
Qed.

Lemma typedChars_instant mode l :
  Forall (fun e => shouldBeInstant mode e = true) l -> typedChars mode l = 0%nat.
Proof.
  induction 1 as [|e l He _ IH]; [done|].
  change (e :: l) with ([e] ++ l). rewrite typedChars_app, IH.
  unfold typedChars. simpl. by rewrite He.
Qed.

Lemma ceil_div_covers a b : (1 <= b)%nat -> (a <= ceil_div a b * b)%nat.
Proof.
  intros Hb. unfold ceil_div.
  pose proof (Nat.div_mod_eq (a + b - 1) b) as Heq.
  pose proof (Nat.mod_upper_bound (a + b - 1) b ltac:(lia)) as Hlt.
  nia.
Qed.

Lemma throttle_hits_budget typed targetFrames :
  (throttle_hits (charsPerFrameOf typed targetFrames) typed <= targetFrames)%nat.
Proof.
  unfold charsPerFrameOf, throttle_hits. destruct targetFrames as [|t]; [done|].
  apply Nat.Div0.div_le_upper_bound.
  pose proof (ceil_div_covers typed (S t) ltac:(lia)). nia.
Qed.

Section FrameCount.
Variable parsedLines : list Entry.
Variable mode : string.
Variable charsPerFrame : option nat.
Variable speed : Q.

Local Abbreviation shown := (revealed parsedLines).
Local Abbreviation n := (length parsedLines).

Lemma gen_loop_frame_count fuel : forall st k,
  lineIdx st = k -> displayLines st = shown k -> (k <= n)%nat ->
  charCounter st = typedChars mode (take k parsedLines) ->
  (length (frames st) <= 1 + throttle_hits charsPerFrame (charCounter st) + 2 * k)%nat ->
  (n - k <= fuel)%nat ->
  (length (frames (gen_loop parsedLines mode charsPerFrame speed fuel st))
   <= 1 + throttle_hits charsPerFrame (typedChars mode parsedLines) + 2 * n)%nat.
Proof.
  induction fuel as [|fuel IH]; intros st k Hk Hdl Hkn Hc Hlen Hfuel.
  - assert (k = n) as -> by lia. simpl. rewrite take_ge in Hc by done. by rewrite <- Hc.
  - simpl. destruct (Nat.ltb_spec (lineIdx st) n) as [Hlt|Hge].
    + destruct (gen_body_cases parsedLines mode charsPerFrame speed st k Hk Hdl ltac:(lia))
        as [(e & He & Hinst & ->)|(e & run & post & He & Hinst & Hdrop & Hrun & Hle & ->)].
      * apply (IH _ (S k)); try done; try lia; cbn [frames charCounter].
        -- rewrite (take_S_r _ _ _ He), typedChars_app, <- Hc.
           unfold typedChars. simpl. by rewrite Hinst.
        -- rewrite !length_app.
           pose proof (typed_frames_length parsedLines charsPerFrame speed k e
                         (charCounter st) (String.length (text e))) as Ht.
           destruct (String.length (text e) - 1 <? String.length (text e))%nat;
             destruct (S k <? n)%nat; simpl; lia.
      * apply (IH _ (S (k + length run))); try done; try lia; cbn [frames charCounter].
        -- rewrite Hc.
           replace (S (k + length run)) with (k + S (length run))%nat by lia.
           rewrite <- (take_take_drop parsedLines k (S (length run))).
           rewrite (drop_S _ _ _ He), Hdrop, typedChars_app.
           change (take (S (length run)) (e :: run ++ post))
             with (e :: take (length run) (run ++ post)).
           rewrite take_app_length, (typedChars_instant mode (e :: run)); [lia|].
           by constructor.
        -- rewrite !length_app.
           destruct (S (k + length run) <? n)%nat; simpl; lia.
    + assert (k = n) as -> by lia. rewrite take_ge in Hc by done. by rewrite <- Hc.
Qed.

Lemma timeline_frame_count :
  (length (timeline parsedLines mode charsPerFrame speed)
   <= throttle_hits charsPerFrame (typedChars mode parsedLines) + 2 * n + 2)%nat.
Proof.
  unfold timeline, push_frame at 1. rewrite length_app. simpl.
  pose proof (gen_loop_frame_count n
                {| frames := push_frame [] 0 500 []; displayLines := [];
                   charCounter := 0; lineIdx := 0 |} 0) as H.
  cbn [frames displayLines charCounter lineIdx] in H.
  specialize (H eq_refl eq_refl ltac:(lia) eq_refl).
  unfold push_frame in H at 1. simpl in H. specialize (H ltac:(lia) ltac:(lia)). lia.
Qed.
End FrameCount.

(** X11. The number of frames is bounded by the frame budget and the number
    of entries: at most [targetFrameCount + 2 * entries + 2], however long
    the typed texts are. *)
Theorem frame_count_bounded parsedLines config options :
  (length (generateTimeline parsedLines config options)
   <= targetFrameCount options + 2 * length parsedLines + 2)%nat.
Proof.
  unfold generateTimeline.
  pose proof (timeline_frame_count parsedLines (effectiveMode config)
                (charsPerFrameOf (typedChars (effectiveMode config) parsedLines)
                   (targetFrameCount options))
                (typingSpeed options)) as H.
  pose proof (throttle_hits_budget (typedChars (effectiveMode config) parsedLines)
                (targetFrameCount options)).
  lia.
Qed.

(** ** The progress metric of the live driver *)

Lemma substring0_length_le s : forall j,
  (j <= String.length s)%nat -> String.length (substring0 j s) = j.
Proof.
  unfold substring0. induction s as [|c s IH]; intros [|j] H; simpl in *; try done; try lia.
  rewrite IH; [done|lia].
Qed.

Lemma fold_add_sum {A} (g : A -> nat) (l : list A) : forall a,
  fold_left (fun sum x => (sum + g x)%nat) l a = (a + sum_list_with g l)%nat.
Proof.
  induction l as [|x l IH]; intros a; simpl; [lia|]. rewrite IH. lia.
Qed.

Lemma hook_typedChars_sum displayed :
  hook_typedChars displayed = sum_list_with slot_chars displayed.
Proof. unfold hook_typedChars. by rewrite (fold_add_sum slot_chars). Qed.

Lemma hook_totalChars_sum lines_ :
  hook_totalChars lines_ = sum_list_with String.length lines_.
Proof. unfold hook_totalChars. by rewrite (fold_add_sum String.length). Qed.

Lemma done_lines_chars lines_ k :
  hook_typedChars (done_lines lines_ k) = sum_list_with String.length (take k lines_).
Proof.
  rewrite hook_typedChars_sum. unfold done_lines.
  generalize (take k lines_). intros l.
  induction l as [|x l IH]; simpl; [done|]. f_equal. exact IH.
Qed.

Lemma typing_lines_chars lines_ k j line :
  (j <= String.length line)%nat ->
  hook_typedChars (typing_lines lines_ k j line) =
  (sum_list_with String.length (take k lines_) + j)%nat.
Proof.
  intros Hj. unfold typing_lines.
  rewrite hook_typedChars_sum, sum_list_with_app, <- hook_typedChars_sum, done_lines_chars.
  destruct j as [|j]; simpl; [done|].
  rewrite (substring0_length_le line (S j)) by done. lia.
Qed.

Lemma take_S_chars (lines_ : list string) k line :
  lines_ !! k = Some line ->
  sum_list_with String.length (take (S k) lines_) =
  (sum_list_with String.length (take k lines_) + String.length line)%nat.
Proof.
  intros H. rewrite (take_S_r _ _ _ H), sum_list_with_app. simpl. lia.
Qed.

Lemma take_chars_le (lines_ : list string) k :
  (sum_list_with String.length (take k lines_) <= sum_list_with String.length lines_)%nat.
Proof.
  rewrite <- (take_drop k lines_) at 2. rewrite sum_list_with_app. lia.
Qed.

Section DriverProgress.
Variable lines_ : list string.
Variable speed : Q.
Variable lineDelay : Q.
Variable mode : string.
Variable lineInfo : option (list Entry).

Lemma typed_chars_bounded d :
  driver_inv lines_ d ->
  (hook_typedChars (displayedLines d) <= hook_totalChars lines_)%nat /\
  (scheduled d = false -> hook_typedChars (displayedLines d) = hook_totalChars lines_).
Proof.
  rewrite hook_totalChars_sum.
  intros [k j line lt ws Hline Hj | k j lt ws Hk | k j lt w ws Hk]; dsimpl.
  - rewrite typing_lines_chars by done. split; [|done].
    pose proof (take_S_chars lines_ k line Hline).
    pose proof (take_chars_le lines_ (S k)). lia.
  - rewrite done_lines_chars. split; [apply take_chars_le|done].
  - rewrite done_lines_chars, Hk, take_ge by done. split; [lia|done].
Qed.

Lemma tick_typed_chars_mono d timestamp :
  driver_inv lines_ d ->
  (hook_typedChars (displayedLines d)
   <= hook_typedChars
        (displayedLines (tick lines_ speed lineDelay mode lineInfo d timestamp)))%nat.
Proof.
  intros [k j line lt ws Hline Hj | k j lt ws Hk | k j lt w ws Hk]; unfold tick;
    dsimpl; [| |done].
  - assert (k < length lines_)%nat as Hkn by (by eapply lookup_lt_Some).
    assert (hook_typedChars (done_lines lines_ (S k))
            = sum_list_with String.length (take k lines_) + String.length line)%nat as Hdone.
    { by rewrite done_lines_chars, (take_S_chars lines_ k line). }
    rewrite typing_lines_chars by done.
    unfold animate. dsimpl. rewrite Hline.
    destruct (negb (shouldTypeLine mode lineInfo k)).
    + unfold next_or_finish, set_shown. dsimpl.
      rewrite arr_set_typing_lines, <- (done_lines_S lines_ k line) by (done || lia).
      destruct (k <? length lines_ - 1)%nat; dsimpl; lia.
    + destruct (negb (Qle_bool speed _)); dsimpl;
        [by rewrite typing_lines_chars|].
      destruct (Nat.ltb_spec j (String.length line)).
      * unfold set_shown. dsimpl. rewrite arr_set_typing_lines by lia.
        change (done_lines lines_ k
                ++ [Some {| shown_text := substring0 (S j) line; complete := false |}])
          with (typing_lines lines_ k (S j) line).
        rewrite typing_lines_chars by lia. lia.
      * unfold next_or_finish, set_shown. dsimpl.
        rewrite arr_set_typing_lines, <- (done_lines_S lines_ k line) by (done || lia).
        destruct (k <? length lines_ - 1)%nat; dsimpl; lia.
  - unfold animate. dsimpl. by destruct (Qle_bool lineDelay _).
Qed.

Lemma progress_quotient (a b total : nat) :
  (0 < total)%nat -> (a <= b)%nat -> (b <= total)%nat ->
  (0 <= inject_Z (Z.of_nat a) / inject_Z (Z.of_nat total))%Q /\
  (inject_Z (Z.of_nat a) / inject_Z (Z.of_nat total)
   <= inject_Z (Z.of_nat b) / inject_Z (Z.of_nat total))%Q /\
  (inject_Z (Z.of_nat b) / inject_Z (Z.of_nat total) <= 1)%Q.
Proof.
  intros Ht Hab Hb.
  assert (0 < inject_Z (Z.of_nat total))%Q as Hpos.
  { change 0%Q with (inject_Z 0). rewrite <- Zlt_Qlt. lia. }
  assert (0 <= inject_Z (Z.of_nat a))%Q as Ha.
  { change 0%Q with (inject_Z 0). rewrite <- Zle_Qle. lia. }
  assert (inject_Z (Z.of_nat a) <= inject_Z (Z.of_nat b))%Q as Hab'.
  { rewrite <- Zle_Qle. lia. }
  assert (inject_Z (Z.of_nat b) <= inject_Z (Z.of_nat total))%Q as Hb'.
  { rewrite <- Zle_Qle. lia. }
  repeat split.
  - apply Qle_shift_div_l; [done|lra].
  - apply Qle_shift_div_r; [done|].
    assert (inject_Z (Z.of_nat b) / inject_Z (Z.of_nat total) * inject_Z (Z.of_nat total)
            == inject_Z (Z.of_nat b))%Q as ->; [|done].
    rewrite Qmult_comm. apply Qmult_div_r. lra.
  - apply Qle_shift_div_r; [done|lra].
Qed.

Lemma progress_step d timestamp :
  driver_inv lines_ d ->
  let d' := tick lines_ speed lineDelay mode lineInfo d timestamp in
  (0 <= hook_progress lines_ (displayedLines d))%Q /\
  (hook_progress lines_ (displayedLines d) <= hook_progress lines_ (displayedLines d'))%Q /\
  (hook_progress lines_ (displayedLines d') <= 1)%Q /\
  (scheduled d = false -> (0 < hook_totalChars lines_)%nat ->
   hook_progress lines_ (displayedLines d) == 1)%Q.
Proof.
  intros Hinv d'.
  pose proof (tick_typed_chars_mono d timestamp Hinv) as Hmono.
  pose proof (tick_inv lines_ speed lineDelay mode lineInfo d timestamp Hinv) as Hinv'.
  destruct (typed_chars_bounded d Hinv) as [Hle Hdone].
  destruct (typed_chars_bounded _ Hinv') as [Hle' _].
  fold d' in Hmono, Hle'. unfold hook_progress.
  destruct (Nat.ltb_spec 0 (hook_totalChars lines_)) as [Hpos|Hzero].
  - destruct (progress_quotient _ _ _ Hpos Hmono Hle') as (H0 & H1 & H2).
    repeat split; try done.
    intros Hs _. rewrite (Hdone Hs).
    unfold Qdiv. apply Qmult_inv_r.
    assert (0 < inject_Z (Z.of_nat (hook_totalChars lines_)))%Q; [|lra].
    change 0%Q with (inject_Z 0). rewrite <- Zlt_Qlt. lia.
  - repeat split; try lra. intros _ Hp. lia.
Qed.

(** X13. However the callbacks are timed, the progress shown under the live
    preview of a non-empty script stays between 0 and 1, never decreases
    from one callback to the next, and is exactly 1 when the driver has
    finished a script that has at least one character. *)
Theorem progress_is_monotone timestamps timestamp :
  lines_ <> [] ->
  let d := run lines_ speed lineDelay mode lineInfo timestamps driver_start in
  let d' := tick lines_ speed lineDelay mode lineInfo d timestamp in
  (0 <= hook_progress lines_ (displayedLines d))%Q /\
  (hook_progress lines_ (displayedLines d) <= hook_progress lines_ (displayedLines d'))%Q /\
  (hook_progress lines_ (displayedLines d') <= 1)%Q /\
  (scheduled d = false -> (0 < hook_totalChars lines_)%nat ->
   hook_progress lines_ (displayedLines d) == 1)%Q.
Proof.
  intros Hne d. apply progress_step.
  apply run_inv. by apply driver_start_inv.
Qed.
End DriverProgress.

Lemma progress_is_monotone_witness :
  let d := run ["ls"; "a.txt"] 50 300 "typing" None [16; 66]%Q driver_start in
  let d' := tick ["ls"; "a.txt"] 50 300 "typing" None d 116 in
  (0 <= hook_progress ["ls"; "a.txt"] (displayedLines d))%Q /\
  (hook_progress ["ls"; "a.txt"] (displayedLines d)
   <= hook_progress ["ls"; "a.txt"] (displayedLines d'))%Q /\
  (hook_progress ["ls"; "a.txt"] (displayedLines d') <= 1)%Q /\
  (scheduled d = false -> (0 < hook_totalChars ["ls"; "a.txt"])%nat ->
   hook_progress ["ls"; "a.txt"] (displayedLines d) == 1)%Q.
Proof.
  apply (progress_is_monotone ["ls"; "a.txt"] 50 300 "typing" None [16; 66]%Q 116).
  discriminate.
Defined.

(** ** What the live preview shows while the driver runs *)

Lemma render_lines_dense parsedLineInfo props hookIndex (ls : list ShownLine) :
  mapM id (imap (render_line parsedLineInfo props hookIndex) (Some <$> ls))
  = Some (imap (line_view parsedLineInfo props hookIndex) ls).
Proof.
  apply mapM_Some, Forall2_same_length_lookup. split.
  - by rewrite !length_imap, length_fmap.
  - intros i x y Hx Hy.
    rewrite list_lookup_imap, list_lookup_fmap in Hx. rewrite list_lookup_imap in Hy.
    destruct (ls !! i) as [l|]; [|done]. simpl in *.
    injection Hx as <-. injection Hy as <-. done.
Qed.

Lemma no_cursor_on_complete parsedLineInfo props hookIndex (ls : list ShownLine) off :
  Forall (fun l => complete l = true) ls ->
  List.filter lv_cursor
    (imap (fun i => line_view parsedLineInfo props hookIndex (off + i)) ls) = [].
Proof.
  intros Hall. apply filter_none, Forall_forall. intros v Hv.
  apply elem_of_lookup_imap in Hv as (i & l & -> & Hl).
  rewrite Forall_forall in Hall.
  unfold line_view. simpl. rewrite (Hall l); [|by eapply list_elem_of_lookup_2].
  by rewrite !andb_false_r.
Qed.

Lemma done_lines_dense lines_ k :
  done_lines lines_ k
  = Some <$> ((fun t => {| shown_text := t; complete := true |}) <$> take k lines_) /\
  Forall (fun l => complete l = true)
         ((fun t => {| shown_text := t; complete := true |}) <$> take k lines_).
Proof.
  split; [unfold done_lines; by rewrite <- list_fmap_compose|].
  by apply Forall_fmap, Forall_true.
Qed.

Lemma live_view_of_state parsedLineInfo d :
  driver_inv (lineTexts parsedLineInfo) d ->
  exists v,
    live_view parsedLineInfo d = Some v /\
    length (view_lines v) = length (displayedLines d) /\
    length (List.filter lv_cursor (view_lines v))
      = (if scheduled d && negb (waitingForNextLine d) && (0 <? d_charIdx d)%nat
         then 1%nat else 0%nat) /\
    view_restingCursor v = negb (scheduled d) /\
    view_progressBar v = scheduled d.
Proof.
  intros [k j line lt ws Hline Hj | k j lt ws Hk | k j lt w ws Hk];
    unfold live_view, render_terminal, effectiveDisplayedLines, effectiveIsComplete;
    dsimpl; cbn [playing forcedDisplayState showComplete isAnimating].
  - destruct (done_lines_dense (lineTexts parsedLineInfo) k) as [Hdense Hdone].
    assert (k <= length (lineTexts parsedLineInfo))%nat as Hk.
    { apply lookup_lt_Some in Hline. lia. }
    unfold typing_lines. rewrite Hdense. destruct j as [|j].
    + rewrite app_nil_r, render_lines_dense.
      eexists. split; [reflexivity|]. cbn [view_lines view_restingCursor view_progressBar].
      rewrite length_imap, !length_fmap.
      rewrite (no_cursor_on_complete _ _ _ _ 0 Hdone). done.
    + change ([Some {| shown_text := substring0 (S j) line; complete := false |}])
        with (Some <$> [ {| shown_text := substring0 (S j) line; complete := false |} ]).
      rewrite <- fmap_app, render_lines_dense.
      eexists. split; [reflexivity|]. cbn [view_lines view_restingCursor view_progressBar].
      rewrite length_imap, !length_fmap, !length_app, !length_fmap.
      split; [done|]. split; [|done].
      rewrite imap_app, List.filter_app, (no_cursor_on_complete _ _ _ _ 0 Hdone).
      rewrite length_fmap, length_take, Nat.min_l by done.
      simpl. unfold line_view, effectiveCurrentLineIndex. simpl.
      by rewrite Nat.add_0_r, Nat.eqb_refl.
  - destruct (done_lines_dense (lineTexts parsedLineInfo) (S k)) as [Hdense Hdone].
    rewrite Hdense, render_lines_dense.
    eexists. split; [reflexivity|]. cbn [view_lines view_restingCursor view_progressBar].
    rewrite length_imap, !length_fmap.
    rewrite (no_cursor_on_complete _ _ _ _ 0 Hdone). done.
  - destruct (done_lines_dense (lineTexts parsedLineInfo) (S k)) as [Hdense Hdone].
    rewrite Hdense, render_lines_dense.
    eexists. split; [reflexivity|]. cbn [view_lines view_restingCursor view_progressBar].
    rewrite length_imap, !length_fmap.
    rewrite (no_cursor_on_complete _ _ _ _ 0 Hdone).
    rewrite length_take, <- Hk, Nat.min_id. done.
Qed.

(** X14. However the callbacks are timed, the live preview of a non-empty
    script renders, and shows at most one cursor: a cursor after the line
    being typed once its first character is out, no cursor at all before
    that and during the pause between lines, and the resting cursor on a new
    line exactly when the driver has finished; the progress bar is shown
    exactly while it has not. *)
Theorem live_preview_one_cursor parsedLineInfo config options timestamps :
  parsedLineInfo <> [] ->
  let d := terminal_run parsedLineInfo config options timestamps in
  exists v,
    live_view parsedLineInfo d = Some v /\
    length (view_lines v) = length (displayedLines d) /\
    length (List.filter lv_cursor (view_lines v))
      = (if scheduled d && negb (waitingForNextLine d) && (0 <? d_charIdx d)%nat
         then 1%nat else 0%nat) /\
    view_restingCursor v = negb (scheduled d) /\
    view_progressBar v = scheduled d /\
    (length (List.filter lv_cursor (view_lines v))
     + (if view_restingCursor v then 1 else 0) <= 1)%nat.
Proof.
  intros Hne d.
  assert (lineTexts parsedLineInfo <> []) as Hne'.
  { unfold lineTexts. by destruct parsedLineInfo. }
  pose proof (run_inv (lineTexts parsedLineInfo) (typingSpeed options) 300
                (effectiveMode config) (Some parsedLineInfo) timestamps driver_start
                (driver_start_inv (lineTexts parsedLineInfo) Hne')) as Hinv.
  fold (terminal_run parsedLineInfo config options timestamps) in Hinv. fold d in Hinv.
  destruct (live_view_of_state parsedLineInfo d Hinv) as (v & Hv & Hlen & Hcur & Hrest & Hbar).
  exists v. repeat split; try done.
  rewrite Hcur, Hrest. destruct (scheduled d), (waitingForNextLine d), (0 <? d_charIdx d)%nat;
    simpl; lia.
Qed.

Lemma live_preview_one_cursor_witness :
  let entries := [ {| type := "command"; text := "ls"; showPrompt := true; instant := false |} ] in
  let d := terminal_run entries sample_config sample_options [16; 66]%Q in
  exists v,
    live_view entries d = Some v /\
    length (view_lines v) = length (displayedLines d) /\
    length (List.filter lv_cursor (view_lines v))
      = (if scheduled d && negb (waitingForNextLine d) && (0 <? d_charIdx d)%nat
         then 1%nat else 0%nat) /\
    view_restingCursor v = negb (scheduled d) /\
    view_progressBar v = scheduled d /\
    (length (List.filter lv_cursor (view_lines v))
     + (if view_restingCursor v then 1 else 0) <= 1)%nat.
Proof.
  apply (live_preview_one_cursor
           [ {| type := "command"; text := "ls"; showPrompt := true; instant := false |} ]
           sample_config sample_options [16; 66]%Q).
  discriminate.
Defined.

(** ** The finished preview and the static complete view *)

Lemma complete_view parsedLineInfo b hookLines hookComplete hookIndex ci :
  render_terminal parsedLineInfo playing
    (done_lines (lineTexts parsedLineInfo) (length (lineTexts parsedLineInfo))) true ci
  = render_terminal parsedLineInfo
      {| isAnimating := b; showComplete := true; forcedDisplayState := None |}
      hookLines hookComplete hookIndex.
Proof.
  unfold render_terminal, effectiveDisplayedLines, effectiveIsComplete.
  cbn [playing forcedDisplayState showComplete isAnimating].
  destruct (done_lines_dense (lineTexts parsedLineInfo) (length (lineTexts parsedLineInfo)))
    as [-> _].
  rewrite take_ge by done.
  change (map (fun text => Some {| shown_text := text; complete := true |})
              (lineTexts parsedLineInfo))
    with ((fun text => Some {| shown_text := text; complete := true |})
            <$> lineTexts parsedLineInfo).
  rewrite (list_fmap_compose (fun text => {| shown_text := text; complete := true |}) Some).
  rewrite !render_lines_dense, !imap_fmap.
  f_equal. f_equal; cbn [negb]; rewrite ?andb_false_r; done.
Qed.

(** X15. Once the driver has finished a non-empty script, the live preview
    is exactly the static complete view that [Terminal] renders under
    [showComplete]: every line in full, no cursor on any line, the resting
    cursor on a new line, no progress bar. *)
Theorem finished_preview_is_complete_view parsedLineInfo config options timestamps
    b hookLines hookComplete hookIndex :
  parsedLineInfo <> [] ->
  scheduled (terminal_run parsedLineInfo config options timestamps) = false ->
  live_view parsedLineInfo (terminal_run parsedLineInfo config options timestamps)
  = render_terminal parsedLineInfo
      {| isAnimating := b; showComplete := true; forcedDisplayState := None |}
      hookLines hookComplete hookIndex.
Proof.
  intros Hne Hs.
  assert (lineTexts parsedLineInfo <> []) as Hne'.
  { unfold lineTexts. by destruct parsedLineInfo. }
  pose proof (run_inv (lineTexts parsedLineInfo) (typingSpeed options) 300
                (effectiveMode config) (Some parsedLineInfo) timestamps driver_start
                (driver_start_inv (lineTexts parsedLineInfo) Hne')) as Hinv.
  fold (terminal_run parsedLineInfo config options timestamps) in Hinv.
  destruct Hinv as [k j line lt ws Hline Hj | k j lt ws Hk | k j lt w ws Hk];
    dsimpl; try discriminate.
  unfold live_view. dsimpl. rewrite Hk. apply complete_view.
Qed.

Lemma finished_preview_is_complete_view_witness :
  let entries := [ {| type := "command"; text := "ls"; showPrompt := true; instant := false |} ] in
  live_view entries (terminal_run entries sample_config sample_options [16; 66; 116; 166]%Q)
  = render_terminal entries
      {| isAnimating := false; showComplete := true; forcedDisplayState := None |}
      [] false 0.
Proof.
  apply (finished_preview_is_complete_view
           [ {| type := "command"; text := "ls"; showPrompt := true; instant := false |} ]
           sample_config sample_options [16; 66; 116; 166]%Q false [] false 0%nat).
  - discriminate.
  - vm_compute. reflexivity.
Defined.

(** X16. Skipping to the end, from any state of the driver, shows exactly
    the static complete view as well. *)
Theorem skipped_preview_is_complete_view parsedLineInfo d b hookLines hookComplete hookIndex :
  live_view parsedLineInfo (skipToEnd (lineTexts parsedLineInfo) d)
  = render_terminal parsedLineInfo
      {| isAnimating := b; showComplete := true; forcedDisplayState := None |}
      hookLines hookComplete hookIndex.
Proof.
  unfold live_view, skipToEnd. dsimpl.
  rewrite <- (complete_view parsedLineInfo b hookLines hookComplete hookIndex
                (length (lineTexts parsedLineInfo))).
  unfold done_lines. by rewrite take_ge.
Qed.
